(** * memorypack-go: a shallow embedding of the reader, the writer and the
      reflective value walker, with the properties of the specification.

    Layout of the development:
    - [Bytes]: bytes, little-endian fixed-width integers, int32 wrap-around;
    - [Errors]: the errors the Go code builds with [fmt.Errorf], outcomes;
    - [Reader] (reader.go) and [Writer] (writer.go);
    - [Schema]: [createFormatterData] (struct.go);
    - [Walker]: [writeValue], [readValue], [Serialize], [Deserialize];
    - [sort]: [sort.Slice] of the Go library, which the schema is built
      with;
    - theorems, one group per property of the specification. *)

From Stdlib Require Import ZArith List Lia Bool String Ascii Permutation Sorted.
From Stdlib Require Import Init.Byte.
Import ListNotations.
Local Open Scope Z_scope.

(** [len(x)] on slices; [String.length] is written out where it is meant. *)
Abbreviation length := List.length.

Set Implicit Arguments.
Set Warnings "-register-all".

(* ------------------------------------------------------------------ *)
(** ** Bytes and fixed-width little-endian integers *)

Module Bytes.

(** [byte(v)] of Go: the low eight bits. *)
Definition byte_of_Z (z : Z) : byte :=
  match Byte.of_N (Z.to_N (Z.land z 255)) with
  | Some b => b
  | None => x00
  end.

Definition Z_of_byte (b : byte) : Z := Z.of_N (Byte.to_N b).

(** [binary.LittleEndian.PutUintN]: byte [i] is [byte(v >> (8*i))]. *)
Fixpoint le_bytes (n : nat) (v : Z) : list byte :=
  match n with
  | O => []
  | S k => byte_of_Z v :: le_bytes k (Z.shiftr v 8)
  end.

(** [binary.LittleEndian.UintN]: [b[0] | b[1]<<8 | ...]. *)
Fixpoint le_value (bs : list byte) : Z :=
  match bs with
  | [] => 0
  | b :: rest => Z.lor (Z_of_byte b) (Z.shiftl (le_value rest) 8)
  end.

(** [intN(u)] for an unsigned [u] of [w] bits: reinterpretation of the bits. *)
Definition to_signed (w : Z) (u : Z) : Z :=
  if u <? 2 ^ (w - 1) then u else u - 2 ^ w.

(** [uintN(v)] for a signed [v]: the value modulo [2^w]. *)
Definition to_unsigned (w : Z) (v : Z) : Z := v mod 2 ^ w.

(** [intN(x)] for an [int] or [int64] [x]: truncation to [w] bits, signed. *)
Definition wrap (w : Z) (x : Z) : Z := to_signed w (to_unsigned w x).

(** [^x] on a signed integer. *)
Definition complement (x : Z) : Z := Z.lnot x.

(** IEEE binary32 and binary64 on bit patterns: [e] exponent bits above
    [m] mantissa bits, the sign on top. *)
Definition isNaN (e m : Z) (bits : Z) : bool :=
  (Z.land (Z.shiftr bits m) (Z.ones e) =? Z.ones e)
  && negb (Z.land bits (Z.ones m) =? 0).

Definition isZero (e m : Z) (bits : Z) : bool :=
  Z.land bits (Z.ones (e + m)) =? 0.

(** [x == y] on two floats: a NaN equals nothing, the two zeros are
    equal, every other value equals itself only. *)
Definition floatEqual (e m : Z) (x y : Z) : bool :=
  negb (isNaN e m x) && negb (isNaN e m y)
  && ((x =? y) || (isZero e m x && isZero e m y)).

(** [float32(float64(x))] on the bits of a float32 [x]: widening quiets a
    signalling NaN, that is sets the top bit of its mantissa, and the way
    back keeps it; every other value comes back as it was. *)
Definition quietNaN32 (bits : Z) : Z :=
  if isNaN 8 23 bits then Z.lor bits (Z.shiftl 1 22) else bits.

End Bytes.
Import Bytes.

(* ------------------------------------------------------------------ *)
(** ** Kinds, types and values as package [reflect] shows them *)

Module reflect.

Inductive Kind : Type :=
| Invalid | Bool | Int | Int8 | Int16 | Int32 | Int64
| Uint | Uint8 | Uint16 | Uint32 | Uint64 | Uintptr
| Float32 | Float64 | Complex64 | Complex128
| Array | Chan | Func | Interface | Map | Ptr | Slice | String | Struct
| UnsafePointer.

Definition Kind_eqb (a b : Kind) : bool :=
  match a, b with
  | Invalid, Invalid | Bool, Bool | Int, Int | Int8, Int8 | Int16, Int16
  | Int32, Int32 | Int64, Int64 | Uint, Uint | Uint8, Uint8
  | Uint16, Uint16 | Uint32, Uint32 | Uint64, Uint64 | Uintptr, Uintptr
  | Float32, Float32 | Float64, Float64 | Complex64, Complex64
  | Complex128, Complex128 | Array, Array | Chan, Chan | Func, Func
  | Interface, Interface | Map, Map | Ptr, Ptr | Slice, Slice
  | String, String | Struct, Struct | UnsafePointer, UnsafePointer => true
  | _, _ => false
  end.

End reflect.

(* ------------------------------------------------------------------ *)
(** ** Errors and outcomes *)

(** The Go code reports every failure as [fmt.Errorf] of a fixed message;
    one constructor per message, with the values the message prints. *)
Inductive error : Type :=
| ErrEndOfBuffer (what : string)
    (* "cannot read <what>: end of buffer" *)
| ErrPeek (n : nat)
    (* "cannot peek %d bytes: end of buffer" *)
| ErrInvalidByteArrayLength (n : Z)
    (* "invalid byte array length: %d" *)
| ErrBytesRequested (requested : Z) (available : Z)
    (* "read error: requested %d bytes but only %d bytes available" *)
| ErrStringRequested (requested : Z) (available : Z)
    (* "read error: requested %d bytes for string but only ..." *)
| ErrFieldCountMismatch
    (* "field count mismatch during deserialization" *)
| ErrMemberCountTooLarge (n : Z)
    (* "member count too large: %d (max 249)" *)
| ErrDepthExceeded
    (* "serialization depth exceeded %d, possible circular reference" *)
| ErrUnsupportedType (kind : reflect.Kind)
    (* "unsupported type: %s" *)
| ErrSkipUnsupported (kind : reflect.Kind)
    (* "skipping unsupported type: %s" and the two "not fully implemented" *)
| ErrOnlyStruct
    (* "SerializeStruct only accepts struct values" *)
| ErrRequiresStructPointer
    (* "DeserializeStruct requires a pointer to a struct" *)
| ErrRequiresPointer
    (* "deserialize requires a pointer to a value" *)
| ErrCustom (msg : string)
    (* an error made by a user's Formatter *)
| ErrWrapped (prefix : string) (e : error).
    (* fmt.Errorf("<prefix>: %w", err) *)

(** What a Go call can do: return normally, return an error, or panic. *)
Inductive outcome (A : Type) : Type :=
| Ok (a : A)
| Err (e : error)
| Panic (msg : string).
Arguments Ok {A} a.
Arguments Err {A} e.
Arguments Panic {A} msg.

(** Modelled from the spec: the error taxonomy of its section 7.  The Go
    code has no error kinds, only messages; this is the classification of
    the messages into the kinds the specification names. *)
Inductive ErrorKind : Type :=
| TruncatedInput | MalformedHeader | SchemaMismatch | SchemaTooLarge
| UnsupportedType | UnsupportedTag | InvalidTarget | DepthExceeded
| CustomError.

Fixpoint errorKind (e : error) : ErrorKind :=
  match e with
  | ErrEndOfBuffer _ => TruncatedInput
  | ErrPeek _ => TruncatedInput
  | ErrBytesRequested _ _ => TruncatedInput
  | ErrStringRequested _ _ => TruncatedInput
  | ErrInvalidByteArrayLength _ => MalformedHeader
  | ErrFieldCountMismatch => SchemaMismatch
  | ErrMemberCountTooLarge _ => SchemaTooLarge
  | ErrDepthExceeded => DepthExceeded
  | ErrUnsupportedType _ => UnsupportedType
  | ErrSkipUnsupported _ => UnsupportedType
  | ErrOnlyStruct => InvalidTarget
  | ErrRequiresStructPointer => InvalidTarget
  | ErrRequiresPointer => InvalidTarget
  | ErrCustom _ => CustomError
  | ErrWrapped _ e' => errorKind e'
  end.

(** A Go method on a pointer receiver: it returns and it leaves the
    receiver in a new state, on the error path too. *)
Definition M (S A : Type) : Type := S -> outcome A * S.

Definition ret {S A} (a : A) : M S A := fun s => (Ok a, s).
Definition fail {S A} (e : error) : M S A := fun s => (Err e, s).
Definition panic {S A} (msg : string) : M S A := fun s => (Panic msg, s).
Definition bind {S A B} (m : M S A) (k : A -> M S B) : M S B :=
  fun s =>
    match m s with
    | (Ok a, s') => k a s'
    | (Err e, s') => (Err e, s')
    | (Panic msg, s') => (Panic msg, s')
    end.

Declare Scope go_scope.
Delimit Scope go_scope with go.
Notation "x <- m ;; k" := (bind m (fun x => k))
  (at level 61, m at next level, right associativity) : go_scope.
Notation "m ;;; k" := (bind m (fun _ => k))
  (at level 61, right associativity) : go_scope.
Local Open Scope go_scope.

(* ------------------------------------------------------------------ *)
(** ** Format constants (const.go) *)

Definition MemoryPackFormatVersion : byte := x07.
Definition NullCollection : Z := -1.
Definition Reserved1 : byte := xfa.
Definition Reserved5 : byte := xfe.
Definition NullObject : byte := xff.
Definition MaxDepth : Z := 1000.

(* ------------------------------------------------------------------ *)
(** ** The byte source (reader.go) *)

Record Reader : Type := mkReader { rbuffer : list byte; rpos : nat }.

Definition NewReader (data : list byte) : Reader := mkReader data 0.

Definition advance (n : nat) (r : Reader) : Reader :=
  mkReader (rbuffer r) (rpos r + n).

(** [r.buffer[r.pos : r.pos+n]] *)
Definition window (n : nat) (r : Reader) : list byte :=
  firstn n (skipn (rpos r) (rbuffer r)).

Definition available (r : Reader) : nat := length (rbuffer r) - rpos r.

Definition ReadByte : M Reader byte := fun r =>
  if (length (rbuffer r) <=? rpos r)%nat
  then (Err (ErrEndOfBuffer "byte"), r)
  else (Ok (nth (rpos r) (rbuffer r) x00), advance 1 r).

Definition Peek (n : nat) : M Reader (list byte) := fun r =>
  if (length (rbuffer r) <? rpos r + n)%nat
  then (Err (ErrPeek n), r)
  else (Ok (window n r), r).

(** The shared shape of ReadInt16/32/64 and ReadFloat32/64: a bounds test,
    a little-endian load of [n] bytes, the cursor moved by [n]. *)
Definition readFixed (what : string) (n : nat) : M Reader Z := fun r =>
  if (length (rbuffer r) <? rpos r + n)%nat
  then (Err (ErrEndOfBuffer what), r)
  else (Ok (le_value (window n r)), advance n r).

Definition ReadInt16 : M Reader Z :=
  v <- readFixed "int16" 2 ;; ret (to_signed 16 v).
Definition ReadInt32 : M Reader Z :=
  v <- readFixed "int32" 4 ;; ret (to_signed 32 v).
Definition ReadInt64 : M Reader Z :=
  v <- readFixed "int64" 8 ;; ret (to_signed 64 v).
(** Floats are carried as their IEEE bit patterns ([math.Float32frombits]
    and [math.Float64frombits] are bijections onto the patterns). *)
Definition ReadFloat32 : M Reader Z := readFixed "float32" 4.
Definition ReadFloat64 : M Reader Z := readFixed "float64" 8.

Definition ReadBool : M Reader bool :=
  b <- ReadByte ;; ret (negb (Z_of_byte b =? 0)).

Definition ReadBytes : M Reader (option (list byte)) :=
  len <- ReadInt32 ;;
  if len =? NullCollection then ret None
  else if len <? 0 then fail (ErrInvalidByteArrayLength len)
  else fun r =>
    if Z.of_nat (available r) <? len
    then (Err (ErrBytesRequested len (Z.of_nat (available r))), r)
    else (Ok (Some (window (Z.to_nat len) r)), advance (Z.to_nat len) r).

Definition ReadString : M Reader (list byte) :=
  byteCount <- ReadInt32 ;;
  if 0 <=? byteCount then
    if byteCount =? NullCollection then ret [] else ret []
  else
    let actualByteCount := complement byteCount in
    _ <- ReadInt32 ;;
    fun r =>
      if (length (rbuffer r) <? rpos r + Z.to_nat actualByteCount)%nat
      then (Err (ErrStringRequested actualByteCount
                   (Z.of_nat (available r))), r)
      else (Ok (window (Z.to_nat actualByteCount) r),
            advance (Z.to_nat actualByteCount) r).

Definition ReadCollectionHeader : M Reader (Z * bool) :=
  len <- ReadInt32 ;;
  if len =? NullCollection then ret (0, true) else ret (len, false).

Definition ReadObjectHeader : M Reader (Z * bool) :=
  header <- ReadByte ;;
  if Byte.eqb header NullObject then ret (0, true)
  else ret (Z_of_byte header, false).

(* ------------------------------------------------------------------ *)
(** ** The byte sink (writer.go) *)

(** [depthLog] is not a field of the Go struct: it is the history of the
    values [depth] has taken, newest first, kept so that properties of the
    intermediate states of a call can be stated.  No operation reads it. *)
Record Writer : Type := mkWriter {
  wbuffer : list byte;
  wpos : nat;
  depth : Z;
  depthLog : list Z
}.

Definition NewWriter (initialCapacity : Z) : Writer :=
  let initialCapacity := if initialCapacity <=? 0 then 64 else initialCapacity in
  mkWriter (repeat x00 (Z.to_nat initialCapacity)) 0 0 [].

Definition setDepth (d : Z) (w : Writer) : Writer :=
  mkWriter (wbuffer w) (wpos w) d (d :: depthLog w).

Definition CheckDepth : M Writer unit := fun w =>
  let w' := setDepth (depth w + 1) w in
  if MaxDepth <? depth w' then (Err ErrDepthExceeded, w') else (Ok tt, w').

Definition EndCheckDepth (w : Writer) : Writer := setDepth (depth w - 1) w.

Definition GetBytes (w : Writer) : list byte := firstn (wpos w) (wbuffer w).

Definition ensureCapacity (additionalBytes : nat) (w : Writer) : Writer :=
  let requiredCapacity := (wpos w + additionalBytes)%nat in
  if (length (wbuffer w) <? requiredCapacity)%nat then
    let newCapacity := (length (wbuffer w) * 2)%nat in
    let newCapacity :=
      if (newCapacity <? requiredCapacity)%nat then requiredCapacity
      else newCapacity in
    mkWriter (wbuffer w ++ repeat x00 (newCapacity - length (wbuffer w)))
             (wpos w) (depth w) (depthLog w)
  else w.

(** [copy(dst[pos:], src)]: as many bytes as fit. *)
Definition copyAt (dst : list byte) (pos : nat) (src : list byte) : list byte :=
  let n := Nat.min (length src) (length dst - pos) in
  firstn pos dst ++ firstn n src ++ skipn (pos + n) dst.

(** The shared tail of the fixed-width writes and of the bulk copies:
    bytes stored at the cursor, the cursor moved past them. *)
Definition put (bs : list byte) (w : Writer) : Writer :=
  mkWriter (copyAt (wbuffer w) (wpos w) bs) (wpos w + length bs)
           (depth w) (depthLog w).

Definition WriteByte (v : byte) (w : Writer) : Writer :=
  put [v] (ensureCapacity 1 w).

Definition WriteInt16 (v : Z) (w : Writer) : Writer :=
  put (le_bytes 2 (to_unsigned 16 v)) (ensureCapacity 2 w).
Definition WriteInt32 (v : Z) (w : Writer) : Writer :=
  put (le_bytes 4 (to_unsigned 32 v)) (ensureCapacity 4 w).
Definition WriteInt64 (v : Z) (w : Writer) : Writer :=
  put (le_bytes 8 (to_unsigned 64 v)) (ensureCapacity 8 w).
(** The argument is the IEEE bit pattern ([math.Float32bits] of the value). *)
Definition WriteFloat32 (bits : Z) (w : Writer) : Writer :=
  put (le_bytes 4 bits) (ensureCapacity 4 w).
Definition WriteFloat64 (bits : Z) (w : Writer) : Writer :=
  put (le_bytes 8 bits) (ensureCapacity 8 w).

Definition WriteFormatVersion (w : Writer) : Writer :=
  WriteByte MemoryPackFormatVersion w.

Definition WriteBool (v : bool) (w : Writer) : Writer :=
  if v then WriteByte x01 w else WriteByte x00 w.

(** [v] is [None] for a nil slice. *)
Definition WriteBytes (v : option (list byte)) (w : Writer) : Writer :=
  match v with
  | None => WriteInt32 NullCollection w
  | Some bs =>
      let w := WriteInt32 (wrap 32 (Z.of_nat (length bs))) w in
      if (0 <? length bs)%nat then put bs (ensureCapacity (length bs) w)
      else w
  end.

(** A Go string is its UTF-8 bytes; [len(v)] counts them. *)
Definition WriteString (v : list byte) (w : Writer) : Writer :=
  match v with
  | [] => WriteInt32 0 w
  | _ =>
      let utf8ByteCount := length v in
      let w := ensureCapacity (utf8ByteCount + 8) w in
      let w := WriteInt32 (complement (wrap 32 (Z.of_nat utf8ByteCount))) w in
      let w := WriteInt32 (wrap 32 (Z.of_nat (length v))) w in
      put v w
  end.

Definition WriteCollectionHeader (len : Z) (w : Writer) : Writer :=
  WriteInt32 (wrap 32 len) w.

Definition WriteNullCollectionHeader (w : Writer) : Writer :=
  WriteInt32 NullCollection w.

Definition WriteObjectHeader (memberCount : Z) : M Writer unit := fun w =>
  if memberCount <? 0 then (Ok tt, WriteByte NullObject w)
  else if memberCount <=? 249 then (Ok tt, WriteByte (byte_of_Z memberCount) w)
  else (Err (ErrMemberCountTooLarge memberCount), w).

(* ------------------------------------------------------------------ *)
(** ** Types and values *)

(** What the walker reads of a [reflect.StructField]; [Tag] is the result
    of [field.Tag.Get("memorypack")]. *)
Record StructField : Type := mkField {
  Name : string;
  PkgPath : string;
  Tag : string
}.

(** A [reflect.Type].  A recursive Go type is represented by its unfolding
    to the depth of the value at hand: under a nil pointer, slice or map
    neither walker looks at the element type. *)
Inductive type : Type :=
| TBasic (k : reflect.Kind)
| TSlice (elem : type)
| TArray (len : nat) (elem : type)
| TMap (key : type) (elem : type)
| TPtr (elem : type)
| TStruct (fields : list (StructField * type)).

Definition kindOf (t : type) : reflect.Kind :=
  match t with
  | TBasic k => k
  | TSlice _ => reflect.Slice
  | TArray _ _ => reflect.Array
  | TMap _ _ => reflect.Map
  | TPtr _ => reflect.Ptr
  | TStruct _ => reflect.Struct
  end.

(** The data of a [reflect.Value].  Integers are [v.Int()], floats their
    IEEE bits, strings their UTF-8 bytes; [None] is nil.  A map is the
    list of its entries in the order [MapRange] yields them. *)
Inductive value : Type :=
| VBool (b : bool)
| VInt (i : Z)
| VFloat (bits : Z)
| VString (s : list byte)
| VBytes (b : option (list byte))
| VSlice (l : option (list value))
| VArray (l : list value)
| VMap (m : option (list (value * value)))
| VStruct (fields : list value)
| VPtr (p : option value)
| VOpaque.

Definition isByteSlice (elem : type) : bool :=
  reflect.Kind_eqb (kindOf elem) reflect.Uint8.

(** [reflect.Zero(t)], the content of fresh storage. *)
Fixpoint zero (t : type) : value :=
  match t with
  | TBasic k =>
      match k with
      | reflect.Bool => VBool false
      | reflect.String => VString []
      | reflect.Float32 | reflect.Float64 => VFloat 0
      | reflect.Int | reflect.Int8 | reflect.Int16 | reflect.Int32
      | reflect.Int64 | reflect.Uint | reflect.Uint8 | reflect.Uint16
      | reflect.Uint32 | reflect.Uint64 | reflect.Uintptr => VInt 0
      | _ => VOpaque
      end
  | TSlice e => if isByteSlice e then VBytes None else VSlice None
  | TArray n e => VArray (repeat (zero e) n)
  | TMap _ _ => VMap None
  | TPtr _ => VPtr None
  | TStruct fields => VStruct (map (fun ft => zero (snd ft)) fields)
  end.

Definition byte_list_eqb (a b : list byte) : bool :=
  if list_eq_dec Byte.byte_eq_dec a b then true else false.

(** [x == y] on two map keys of type [t] that the reader has just
    decoded.  Two pointers are equal when both are nil: every pointer the
    reader makes is a fresh allocation.  Slices and maps are no key types. *)
Fixpoint keyEqual (t : type) (a b : value) {struct t} : bool :=
  let fix all2 (eqs : list (value -> value -> bool)) (l1 l2 : list value)
    {struct eqs} : bool :=
    match eqs, l1, l2 with
    | [], [], [] => true
    | eq :: eqs', x :: l1', y :: l2' => eq x y && all2 eqs' l1' l2'
    | _, _, _ => false
    end in
  match t with
  | TBasic k =>
      match k, a, b with
      | reflect.Bool, VBool x, VBool y => Bool.eqb x y
      | (reflect.Int | reflect.Int8 | reflect.Int16 | reflect.Int32
        | reflect.Int64), VInt x, VInt y => x =? y
      | reflect.Float32, VFloat x, VFloat y => floatEqual 8 23 x y
      | reflect.Float64, VFloat x, VFloat y => floatEqual 11 52 x y
      | reflect.String, VString x, VString y => byte_list_eqb x y
      | _, _, _ => false
      end
  | TPtr _ =>
      match a, b with
      | VPtr None, VPtr None => true
      | _, _ => false
      end
  | TArray n elem =>
      match a, b with
      | VArray x, VArray y => all2 (repeat (keyEqual elem) n) x y
      | _, _ => false
      end
  | TStruct fields =>
      match a, b with
      | VStruct x, VStruct y =>
          all2 (map (fun ft => keyEqual (snd ft)) fields) x y
      | _, _ => false
      end
  | TSlice _ | TMap _ _ => false
  end.

(* ------------------------------------------------------------------ *)
(** ** The field schema (struct.go, [createFormatterData]) *)

Record fieldInfo : Type := mkFieldInfo {
  index : nat;
  kind : reflect.Kind;
  name : string;
  order : Z
}.

(** [strconv.Atoi] of the Go library, from its documentation: an optional
    sign, then decimal digits only, and the value must fit an [int]. *)
Definition digitValue (c : ascii) : option Z :=
  let n := Z.of_N (N_of_ascii c) in
  if (48 <=? n) && (n <=? 57) then Some (n - 48) else None.

Fixpoint parseDigits (s : string) (acc : Z) : option Z :=
  match s with
  | EmptyString => Some acc
  | String c rest =>
      match digitValue c with
      | Some d => parseDigits rest (acc * 10 + d)
      | None => None
      end
  end.

Definition Atoi (s : string) : option Z :=
  match s with
  | EmptyString => None
  | String c rest =>
      let neg := Ascii.eqb c "-" in
      let digits := if neg || Ascii.eqb c "+" then rest else s in
      match digits with
      | EmptyString => None
      | _ =>
          match parseDigits digits 0 with
          | Some n =>
              let n := if neg then - n else n in
              if (- 2 ^ 63 <=? n) && (n <? 2 ^ 63) then Some n else None
          | None => None
          end
      end
  end.

(** [strings.Split(tag, ",")[0]] *)
Fixpoint beforeComma (s : string) : string :=
  match s with
  | EmptyString => EmptyString
  | String c rest =>
      if Ascii.eqb c "," then EmptyString else String c (beforeComma rest)
  end.

(** The order a field declares: its position, unless the tag starts with
    a number. *)
Definition declaredOrder (i : nat) (tag : string) : Z :=
  if negb (String.eqb tag "") && negb (String.eqb tag "-") then
    let orderStr := beforeComma tag in
    if negb (String.eqb orderStr "") then
      match Atoi orderStr with
      | Some parsedOrder => parsedOrder
      | None => Z.of_nat i
      end
    else Z.of_nat i
  else Z.of_nat i.

(** The loop of [createFormatterData], from field [i] on. *)
Fixpoint collectFields (i : nat) (fields : list (StructField * type))
  : list fieldInfo :=
  match fields with
  | [] => []
  | (field, ft) :: rest =>
      if negb (String.eqb (PkgPath field) "") then collectFields (S i) rest
      else
        let order := declaredOrder i (Tag field) in
        if String.eqb (Tag field) "-" then collectFields (S i) rest
        else mkFieldInfo i (kindOf ft) (Name field) order
             :: collectFields (S i) rest
  end.

(** The comparison handed to [sort.Slice]. *)
Definition lessOrder (a b : fieldInfo) : bool := order a <? order b.

Section Walker.

(** [sort.Slice] of the Go library, at the one type it is used at. *)
Variable sortSlice :
  (fieldInfo -> fieldInfo -> bool) -> list fieldInfo -> list fieldInfo.

Definition createFormatterData (fields : list (StructField * type))
  : list fieldInfo :=
  sortSlice lessOrder (collectFields 0 fields).

(** [getFormatterData]: the cache holds what [createFormatterData] gave. *)
Definition getFormatterData := createFormatterData.

(* ------------------------------------------------------------------ *)
(** ** The value walker (struct.go) *)

Definition lift {S} (f : S -> S) : M S unit := fun s => (Ok tt, f s).

(** [defer f()] around a body. *)
Definition deferred {S A} (f : S -> S) (body : M S A) : M S A :=
  fun s => let (res, s') := body s in (res, f s').

Fixpoint writeEach (wr : value -> M Writer unit) (l : list value)
  : M Writer unit :=
  match l with
  | [] => ret tt
  | x :: rest => wr x ;;; writeEach wr rest
  end.

Fixpoint writeEntries (wk wv : value -> M Writer unit)
  (l : list (value * value)) : M Writer unit :=
  match l with
  | [] => ret tt
  | (k, v) :: rest => wk k ;;; wv v ;;; writeEntries wk wv rest
  end.

(** The field loop of [SerializeStruct]; [writers] holds [writeValue] at
    the type of each declared field. *)
Fixpoint writeFields (writers : list (value -> M Writer unit))
  (vals : list value) (fd : list fieldInfo) : M Writer unit :=
  match fd with
  | [] => ret tt
  | field :: rest =>
      match nth_error writers (index field), nth_error vals (index field) with
      | Some wr, Some fieldValue =>
          wr fieldValue ;;; writeFields writers vals rest
      | _, _ => panic "reflect: Field index out of range"
      end
  end.

(** [SerializeStruct] past its kind tests. *)
Definition serializeFields (fields : list (StructField * type))
  (writers : list (value -> M Writer unit)) (v : value) : M Writer unit :=
  match v with
  | VStruct vals =>
      let fd := getFormatterData fields in
      WriteObjectHeader (Z.of_nat (length fd)) ;;;
      writeFields writers vals fd
  | _ => panic "reflect: call of Field on a value that is no struct"
  end.

Definition badValue {S A} : M S A :=
  panic "reflect: call of a Value method on a value of another kind".

Fixpoint writeValue (t : type) (v : value) {struct t} : M Writer unit :=
  _ <- CheckDepth ;;
  deferred EndCheckDepth
    match t with
    | TBasic k =>
        match k, v with
        | reflect.Bool, VBool b => lift (WriteBool b)
        | reflect.Int8, VInt i => lift (WriteByte (byte_of_Z i))
        | reflect.Int16, VInt i => lift (WriteInt16 (wrap 16 i))
        | reflect.Int32, VInt i => lift (WriteInt32 (wrap 32 i))
        | reflect.Int, VInt i | reflect.Int64, VInt i => lift (WriteInt64 i)
        | reflect.Float32, VFloat bits =>
            lift (WriteFloat32 (quietNaN32 bits))
        | reflect.Float64, VFloat bits => lift (WriteFloat64 bits)
        | reflect.String, VString s => lift (WriteString s)
        | (reflect.Bool | reflect.Int8 | reflect.Int16 | reflect.Int32
          | reflect.Int | reflect.Int64 | reflect.Float32 | reflect.Float64
          | reflect.String), _ => badValue
        | _, _ => fail (ErrUnsupportedType k)
        end
    | TSlice elem =>
        match v with
        | VBytes None | VSlice None => lift WriteNullCollectionHeader
        | VBytes (Some bs) =>
            if isByteSlice elem then lift (WriteBytes (Some bs)) else badValue
        | VSlice (Some l) =>
            if isByteSlice elem then badValue
            else
              lift (WriteCollectionHeader (Z.of_nat (length l))) ;;;
              writeEach (writeValue elem) l
        | _ => badValue
        end
    | TArray _ elem =>
        match v with
        | VArray l =>
            lift (WriteCollectionHeader (Z.of_nat (length l))) ;;;
            writeEach (writeValue elem) l
        | _ => badValue
        end
    | TMap key elem =>
        match v with
        | VMap None => lift WriteNullCollectionHeader
        | VMap (Some m) =>
            lift (WriteCollectionHeader (Z.of_nat (length m))) ;;;
            if (0 <? length m)%nat
            then writeEntries (writeValue key) (writeValue elem) m
            else ret tt
        | _ => badValue
        end
    | TStruct fields =>
        serializeFields fields
          (map (fun ft => writeValue (snd ft)) fields) v
    | TPtr elem =>
        match v with
        | VPtr (Some x) => writeValue elem x
        | VPtr None => lift (WriteByte NullObject)
        | _ => badValue
        end
    end.

(** [for range n { m }] *)
Fixpoint repeatM {S} (n : nat) (m : M S unit) : M S unit :=
  match n with
  | O => ret tt
  | S k => m ;;; repeatM k m
  end.

(** [skipValue]: what [DeserializeStruct] does with a field it cannot set. *)
Definition skipValue (k : reflect.Kind) : M Reader unit :=
  match k with
  | reflect.Bool | reflect.Int8 | reflect.Uint8 => _ <- ReadByte ;; ret tt
  | reflect.Int16 | reflect.Uint16 => _ <- ReadInt16 ;; ret tt
  | reflect.Int32 | reflect.Uint32 | reflect.Float32 =>
      _ <- ReadInt32 ;; ret tt
  | reflect.Int64 | reflect.Uint64 | reflect.Float64 =>
      _ <- ReadInt64 ;; ret tt
  | reflect.String => _ <- ReadString ;; ret tt
  | reflect.Slice | reflect.Array =>
      hdr <- ReadCollectionHeader ;;
      if snd hdr then ret tt
      else repeatM (Z.to_nat (fst hdr)) (_ <- ReadInt32 ;; ret tt)
  | reflect.Map =>
      hdr <- ReadCollectionHeader ;;
      if snd hdr then ret tt
      else repeatM (Z.to_nat (fst hdr))
             (_ <- ReadString ;; _ <- ReadString ;; ret tt)
  | reflect.Struct =>
      hdr <- ReadObjectHeader ;;
      if snd hdr then ret tt else fail (ErrSkipUnsupported k)
  | reflect.Ptr =>
      header <- ReadByte ;;
      if Byte.eqb header NullObject then ret tt
      else fail (ErrSkipUnsupported k)
  | _ => fail (ErrSkipUnsupported k)
  end.

(** [for i := range count { readValue(reader, v.Index(i)) }] over the
    elements [l] of the storage; an index past them panics. *)
Fixpoint readIndexed (rd : value -> M Reader value) (count : nat)
  (l : list value) : M Reader (list value) :=
  match count with
  | O => ret l
  | S c =>
      match l with
      | [] => panic "reflect: array index out of range"
      | x :: rest =>
          x' <- rd x ;; rest' <- readIndexed rd c rest ;; ret (x' :: rest')
      end
  end.

(** [mapValue.SetMapIndex(key, value)]: the entry of an equal key is
    replaced, a new key is added; [eq] is the equality of the key type. *)
Fixpoint SetMapIndex (eq : value -> value -> bool) (k v : value)
  (m : list (value * value)) : list (value * value) :=
  match m with
  | [] => [(k, v)]
  | (k', v') :: rest =>
      if eq k' k then (k', v) :: rest
      else (k', v') :: SetMapIndex eq k v rest
  end.

Fixpoint readEntries (eq : value -> value -> bool) (rk rv : M Reader value)
  (count : nat) (m : list (value * value))
  : M Reader (list (value * value)) :=
  match count with
  | O => ret m
  | S c =>
      key <- rk ;; val <- rv ;;
      readEntries eq rk rv c (SetMapIndex eq key val m)
  end.

(** [v.Field(i).Set(x)] on the fields of the storage. *)
Fixpoint setField (i : nat) (x : value) (vals : list value) : list value :=
  match i, vals with
  | _, [] => []
  | O, _ :: rest => x :: rest
  | S j, y :: rest => y :: setField j x rest
  end.

(** [fieldValue.CanSet()] for a field of addressable storage: the field
    is exported. *)
Definition CanSet (field : StructField) : bool := String.eqb (PkgPath field) "".

(** The field loop of [DeserializeStruct]; [readers] holds [readValue] at
    the type of each declared field. *)
Fixpoint readFields (fields : list (StructField * type))
  (readers : list (value -> M Reader value)) (fd : list fieldInfo)
  (vals : list value) : M Reader (list value) :=
  match fd with
  | [] => ret vals
  | field :: rest =>
      match nth_error fields (index field), nth_error readers (index field),
            nth_error vals (index field) with
      | Some (sf, _), Some rd, Some fieldValue =>
          if CanSet sf then
            x <- rd fieldValue ;;
            readFields fields readers rest (setField (index field) x vals)
          else
            skipValue (kind field) ;;;
            readFields fields readers rest vals
      | _, _, _ => panic "reflect: Field index out of range"
      end
  end.

(** [DeserializeStruct] past its kind tests; the result is the new
    content of the struct. *)
Definition deserializeFields (fields : list (StructField * type))
  (readers : list (value -> M Reader value)) (cur : value)
  : M Reader value :=
  match cur with
  | VStruct vals =>
      let fd := getFormatterData fields in
      hdr <- ReadObjectHeader ;;
      if snd hdr then ret cur
      else if negb (fst hdr =? Z.of_nat (length fd))
      then fail ErrFieldCountMismatch
      else vals' <- readFields fields readers fd vals ;; ret (VStruct vals')
  | _ => panic "reflect: call of Field on a value that is no struct"
  end.

(** [readValue reader v]: [cur] is what the storage [v] holds, the result
    is what it holds afterwards. *)
Fixpoint readValue (t : type) (cur : value) {struct t} : M Reader value :=
  match t with
  | TBasic k =>
      match k with
      | reflect.Bool => val <- ReadBool ;; ret (VBool val)
      | reflect.Int8 => val <- ReadByte ;; ret (VInt (wrap 8 (Z_of_byte val)))
      | reflect.Int16 => val <- ReadInt16 ;; ret (VInt val)
      | reflect.Int32 => val <- ReadInt32 ;; ret (VInt val)
      | reflect.Int | reflect.Int64 => val <- ReadInt64 ;; ret (VInt val)
      | reflect.Float32 =>
          val <- ReadFloat32 ;; ret (VFloat (quietNaN32 val))
      | reflect.Float64 => val <- ReadFloat64 ;; ret (VFloat val)
      | reflect.String => val <- ReadString ;; ret (VString val)
      | _ => fail (ErrUnsupportedType k)
      end
  | TSlice elem =>
      if isByteSlice elem then bytes <- ReadBytes ;; ret (VBytes bytes)
      else
        hdr <- ReadCollectionHeader ;;
        if snd hdr then ret (VSlice None)
        else if fst hdr <? 0 then panic "reflect.MakeSlice: negative len"
        else
          let slice := repeat (zero elem) (Z.to_nat (fst hdr)) in
          slice' <- readIndexed (readValue elem) (Z.to_nat (fst hdr)) slice ;;
          ret (VSlice (Some slice'))
  | TArray _ elem =>
      hdr <- ReadCollectionHeader ;;
      if snd hdr then ret cur
      else
        match cur with
        | VArray l =>
            l' <- readIndexed (readValue elem) (Z.to_nat (fst hdr)) l ;;
            ret (VArray l')
        | _ => badValue
        end
  | TMap key elem =>
      hdr <- ReadCollectionHeader ;;
      if snd hdr then ret (VMap None)
      else
        m <- readEntries (keyEqual key)
               (readValue key (zero key)) (readValue elem (zero elem))
               (Z.to_nat (fst hdr)) [] ;;
        ret (VMap (Some m))
  | TStruct fields =>
      deserializeFields fields
        (map (fun ft => readValue (snd ft)) fields) cur
  | TPtr elem =>
      b <- Peek 1 ;;
      if Byte.eqb (hd x00 b) NullObject then
        _ <- ReadByte ;; ret (VPtr None)
      else
        let target :=
          match cur with
          | VPtr (Some x) => x
          | _ => zero elem
          end in
        x' <- readValue elem target ;; ret (VPtr (Some x'))
  end.

(* ------------------------------------------------------------------ *)
(** ** The public operations *)

(** A type's own [Serialize] and [Deserialize] methods; the latter gives
    the new content of the receiver. *)
Record Formatter : Type := mkFormatter {
  fmtSerialize : M Writer unit;
  fmtDeserialize : M Reader value
}.

(** A value of type [any]: its dynamic type, its data, and its methods
    when the type implements [Formatter]. *)
Record any : Type := mkAny {
  typeOf : type;
  valueOf : value;
  formatter : option Formatter
}.

(** [v.Elem()] when [v] is a pointer. *)
Definition elemIfPtr (t : type) (v : value) : type * value :=
  match t, v with
  | TPtr e, VPtr (Some x) => (e, x)
  | TPtr _, _ => (TBasic reflect.Invalid, VOpaque)
  | _, _ => (t, v)
  end.

Definition SerializeStruct (t : type) (v : value) : M Writer unit :=
  match elemIfPtr t v with
  | (TStruct fields, v') =>
      serializeFields fields (map (fun ft => writeValue (snd ft)) fields) v'
  | _ => fail ErrOnlyStruct
  end.

Definition DeserializeStruct (t : type) (v : value) : M Reader value :=
  match t, v with
  | TPtr (TStruct fields), VPtr (Some cur) =>
      deserializeFields fields (map (fun ft => readValue (snd ft)) fields) cur
  | _, _ => fail ErrRequiresStructPointer
  end.

Definition wrapErr {S A} (prefix : string) (m : M S A) : M S A :=
  fun s =>
    match m s with
    | (Err e, s') => (Err (ErrWrapped prefix e), s')
    | other => other
    end.

(** The body of [Serialize], on its writer. *)
Definition serializeOn (a : any) : M Writer unit :=
  match formatter a with
  | Some f => wrapErr "failed to serialize value" (fmtSerialize f)
  | None => ret tt
  end ;;;
  match typeOf a, valueOf a with
  | TPtr _, VPtr None => lift (WriteByte NullObject)
  | t, v =>
      let (t', v') := elemIfPtr t v in
      match t' with
      | TStruct _ => SerializeStruct t' v'
      | _ => writeValue t' v'
      end
  end.

Definition Serialize (a : any) : outcome (list byte) :=
  match serializeOn a (NewWriter 128) with
  | (Ok _, w) => Ok (GetBytes w)
  | (Err e, _) => Err e
  | (Panic msg, _) => Panic msg
  end.

(** The body of [Deserialize], on its reader: the new content of the
    storage [value] points to.  The source spells the struct case
    [deserializeStruct]; the struct reader of the repository is
    [DeserializeStruct]. *)
Definition deserializeOn (a : any) : M Reader value :=
  match formatter a with
  | Some f => wrapErr "deserialize failed" (fmtDeserialize f)
  | None =>
      match typeOf a with
      | TPtr e =>
          match elemIfPtr (typeOf a) (valueOf a) with
          | (TStruct _, _) => DeserializeStruct (typeOf a) (valueOf a)
          | (t', cur) => readValue t' cur
          end
      | _ => fail ErrRequiresPointer
      end
  end.

Definition Deserialize (data : list byte) (a : any) : outcome value :=
  fst (deserializeOn a (NewReader data)).

End Walker.

(* ------------------------------------------------------------------ *)
(** ** Vocabulary of the statements *)

(** The input a reader has not consumed yet. *)
Definition remaining (r : Reader) : list byte := skipn (rpos r) (rbuffer r).

(** A failing read leaves the reader as it found it. *)
Definition failed {S A} (res : outcome A * S) : Prop :=
  forall a, fst res <> Ok a.

Definition failsClean {A} (op : M Reader A) : Prop :=
  forall r, failed (op r) -> snd (op r) = r.

(** A successful read moves the cursor by [width] of its result, within
    the buffer, and touches nothing else. *)
Definition advancesBy {A} (op : M Reader A) (width : A -> nat) : Prop :=
  forall r a r', op r = (Ok a, r') ->
    r' = advance (width a) r /\ (rpos r + width a <= length (rbuffer r))%nat.

(** [Serialize(&v)] and [Deserialize(data, &storage)]: the argument is a
    pointer to a variable of type [t]. *)
Definition addressOf (t : type) (v : value) : any :=
  mkAny (TPtr t) (VPtr (Some v)) None.

(** The insertion sort [sort.Slice] runs on a slice of at most twelve
    elements ([insertionSortLessFunc] of the Go library): each element
    moves left while it is less than its left neighbour.  The sorted
    prefix is kept reversed. *)
Fixpoint bubble {A} (less : A -> A -> bool) (x : A) (revPrefix : list A)
  : list A :=
  match revPrefix with
  | [] => [x]
  | y :: rest => if less x y then y :: bubble less x rest else x :: revPrefix
  end.

Definition insertionSort {A} (less : A -> A -> bool) (l : list A) : list A :=
  rev (fold_left (fun revPrefix x => bubble less x revPrefix) l []).

(** [CustomFormat] of memorypack_test.go, whose pointer implements
    [Formatter]. *)
Module CustomFormat.

Definition T : type :=
  TStruct [ (mkField "IntValue" "" "", TBasic reflect.Int);
            (mkField "StrValue" "" "", TBasic reflect.String) ].

Definition Serialize (c : value) : M Writer unit :=
  match c with
  | VStruct [VInt IntValue; VString StrValue] =>
      lift (WriteInt32 (wrap 32 IntValue)) ;;; lift (WriteString StrValue)
  | _ => badValue
  end.

Definition Deserialize : M Reader value :=
  val <- ReadInt32 ;; str <- ReadString ;; ret (VStruct [VInt val; VString str]).

(** [&CustomFormat{...}] as an [any]. *)
Definition pointer (c : value) : any :=
  mkAny (TPtr T) (VPtr (Some c)) (Some (mkFormatter (Serialize c) Deserialize)).

Definition original : value :=
  VStruct [VInt 42; VString ["c"; "u"; "s"; "t"; "o"; "m"]%byte].

End CustomFormat.




(** [sort.Slice] as the Go library implements it (package sort,
    zsortfunc.go, Go 1.19 and later): pattern-defeating quicksort, with
    the insertion sort above on ranges of at most twelve elements.  The
    slice is a list, [data[a:b]] the range at work. *)
Module sort.

Section PDQ.

Context {A : Type} (less : A -> A -> bool).

Fixpoint setAt (i : nat) (x : A) (data : list A) : list A :=
  match i, data with
  | _, [] => []
  | O, _ :: rest => x :: rest
  | S k, y :: rest => y :: setAt k x rest
  end.

(** [data.Swap(i, j)] *)
Definition Swap (data : list A) (i j : nat) : list A :=
  match nth_error data i, nth_error data j with
  | Some x, Some y => setAt j x (setAt i y data)
  | _, _ => data
  end.

(** [data.Less(i, j)] *)
Definition Less (data : list A) (i j : nat) : bool :=
  match nth_error data i, nth_error data j with
  | Some x, Some y => less x y
  | _, _ => false
  end.

Definition insertionSortLessFunc (data : list A) (a b : nat) : list A :=
  firstn a data ++ insertionSort less (firstn (b - a) (skipn a data))
  ++ skipn b data.

Fixpoint siftDownLessFunc (fuel : nat) (data : list A) (root hi first : nat)
  : list A :=
  match fuel with
  | O => data
  | S f =>
      let child := (2 * root + 1)%nat in
      if (hi <=? child)%nat then data
      else
        let child :=
          if (child + 1 <? hi)%nat
             && Less data (first + child) (first + child + 1)
          then (child + 1)%nat else child in
        if negb (Less data (first + root) (first + child)) then data
        else siftDownLessFunc f (Swap data (first + root) (first + child))
               child hi first
  end.

Definition heapSortLessFunc (data : list A) (a b : nat) : list A :=
  let first := a in
  let hi := (b - a)%nat in
  let data :=
    fold_left (fun d i => siftDownLessFunc hi d i hi first)
      (rev (seq 0 ((hi - 1) / 2 + 1))) data in
  fold_left (fun d i => siftDownLessFunc hi (Swap d first (first + i)) 0 i first)
    (rev (seq 0 hi)) data.

(** [bits.Len(uint(n))] *)
Definition bitsLen (n : nat) : nat :=
  match n with
  | O => O
  | _ => Z.to_nat (Z.log2 (Z.of_nat n) + 1)
  end.

(** [xorshift.Next], on a [uint64]. *)
Definition xorshiftNext (r : Z) : Z :=
  let r := Z.lxor r (Z.shiftl r 13 mod 2 ^ 64) in
  let r := Z.lxor r (Z.shiftr r 7) in
  Z.lxor r (Z.shiftl r 17 mod 2 ^ 64).

Definition breakPatternsLessFunc (data : list A) (a b : nat) : list A :=
  let length := (b - a)%nat in
  if (8 <=? length)%nat then
    let modulus := 2 ^ Z.of_nat (bitsLen length) in
    let idx := (a + length / 4 * 2 - 1)%nat in
    let step (st : list A * Z) (i : nat) : list A * Z :=
      let random := xorshiftNext (snd st) in
      let other := Z.to_nat (Z.land random (modulus - 1)) in
      let other := if (length <=? other)%nat then (other - length)%nat
                   else other in
      (Swap (fst st) (idx - 1 + i) (a + other), random) in
    fst (fold_left step [0; 1; 2]%nat (data, Z.of_nat length))
  else data.

Inductive sortedHint : Type := unknownHint | increasingHint | decreasingHint.

(** [order2LessFunc], [medianLessFunc], [medianAdjacentLessFunc]: the
    result with the count of swaps so far. *)
Definition order2LessFunc (data : list A) (a b swaps : nat)
  : nat * nat * nat :=
  if Less data b a then (b, a, S swaps) else (a, b, swaps).

Definition medianLessFunc (data : list A) (a b c swaps : nat) : nat * nat :=
  let '(a, b, swaps) := order2LessFunc data a b swaps in
  let '(b, c, swaps) := order2LessFunc data b c swaps in
  let '(a, b, swaps) := order2LessFunc data a b swaps in
  (b, swaps).

Definition medianAdjacentLessFunc (data : list A) (a swaps : nat)
  : nat * nat :=
  medianLessFunc data (a - 1) a (a + 1) swaps.

Definition choosePivotLessFunc (data : list A) (a b : nat)
  : nat * sortedHint :=
  let l := (b - a)%nat in
  let i := (a + l / 4 * 1)%nat in
  let j := (a + l / 4 * 2)%nat in
  let k := (a + l / 4 * 3)%nat in
  let '(j, swaps) :=
    if (8 <=? l)%nat then
      let '(i, j, k, swaps) :=
        if (50 <=? l)%nat then
          let '(i, swaps) := medianAdjacentLessFunc data i 0 in
          let '(j, swaps) := medianAdjacentLessFunc data j swaps in
          let '(k, swaps) := medianAdjacentLessFunc data k swaps in
          (i, j, k, swaps)
        else (i, j, k, O) in
      medianLessFunc data i j k swaps
    else (j, O) in
  match swaps with
  | O => (j, increasingHint)
  | 12%nat => (j, decreasingHint)
  | _ => (j, unknownHint)
  end.

Definition reverseRangeLessFunc (data : list A) (a b : nat) : list A :=
  firstn a data ++ rev (firstn (b - a) (skipn a data)) ++ skipn b data.

(** [for i <= j && p(i) { i++ }] and [for i <= j && p(j) { j-- }] *)
Fixpoint scanUp (fuel : nat) (p : nat -> bool) (i j : nat) : nat :=
  match fuel with
  | O => i
  | S f => if (i <=? j)%nat && p i then scanUp f p (S i) j else i
  end.

Fixpoint scanDown (fuel : nat) (p : nat -> bool) (i j : nat) : nat :=
  match fuel with
  | O => j
  | S f => if (i <=? j)%nat && p j then scanDown f p i (j - 1) else j
  end.

Fixpoint partitionLoop (fuel : nat) (data : list A) (a i j : nat)
  : list A * nat :=
  match fuel with
  | O => (Swap data j a, j)
  | S f =>
      let i := scanUp (length data) (fun i => Less data i a) i j in
      let j := scanDown (length data) (fun j => negb (Less data j a)) i j in
      if (j <? i)%nat then (Swap data j a, j)
      else partitionLoop f (Swap data i j) a (S i) (j - 1)
  end.

Definition partitionLessFunc (data : list A) (a b pivot : nat)
  : list A * nat * bool :=
  let data := Swap data a pivot in
  let i := scanUp (length data) (fun i => Less data i a) (a + 1) (b - 1) in
  let j := scanDown (length data) (fun j => negb (Less data j a)) i (b - 1) in
  if (j <? i)%nat then (Swap data j a, j, true)
  else
    let (data, mid) := partitionLoop (length data) (Swap data i j) a (S i) (j - 1) in
    (data, mid, false).

Fixpoint partitionEqualLoop (fuel : nat) (data : list A) (a i j : nat)
  : list A * nat :=
  match fuel with
  | O => (data, i)
  | S f =>
      let i := scanUp (length data) (fun i => negb (Less data a i)) i j in
      let j := scanDown (length data) (fun j => Less data a j) i j in
      if (j <? i)%nat then (data, i)
      else partitionEqualLoop f (Swap data i j) a (S i) (j - 1)
  end.

Definition partitionEqualLessFunc (data : list A) (a b pivot : nat)
  : list A * nat :=
  partitionEqualLoop (length data) (Swap data a pivot) a (a + 1) (b - 1).

(** [for j := i - 1; j >= 1; j-- { ... }] and [for j := i + 1; j < b; j++
    { ... }] of [partialInsertionSortLessFunc]. *)
Fixpoint shiftLeft (fuel : nat) (data : list A) (j : nat) : list A :=
  match fuel with
  | O => data
  | S f =>
      if (1 <=? j)%nat then
        if negb (Less data j (j - 1)) then data
        else shiftLeft f (Swap data j (j - 1)) (j - 1)
      else data
  end.

Fixpoint shiftRight (fuel : nat) (data : list A) (j b : nat) : list A :=
  match fuel with
  | O => data
  | S f =>
      if (j <? b)%nat then
        if negb (Less data j (j - 1)) then data
        else shiftRight f (Swap data j (j - 1)) (S j) b
      else data
  end.

Fixpoint partialInsertionSortSteps (steps : nat) (data : list A) (i a b : nat)
  : list A * bool :=
  match steps with
  | O => (data, false)
  | S st =>
      let i := scanUp (length data)
                 (fun i => (i <? b)%nat && negb (Less data i (i - 1))) i b in
      if (i =? b)%nat then (data, true)
      else if (b - a <? 50)%nat then (data, false)
      else
        let data := Swap data i (i - 1) in
        let data := if (2 <=? i - a)%nat then shiftLeft i data (i - 1)
                    else data in
        let data := if (2 <=? b - i)%nat then shiftRight b data (i + 1) b
                    else data in
        partialInsertionSortSteps st data i a b
  end.

Definition partialInsertionSortLessFunc (data : list A) (a b : nat)
  : list A * bool :=
  partialInsertionSortSteps 5 data (a + 1) a b.

Definition hintIsIncreasing (h : sortedHint) : bool :=
  match h with increasingHint => true | _ => false end.

(** [pdqsortLessFunc]: one turn of its loop per unit of [fuel], which the
    length of the range bounds. *)
Fixpoint pdqsortLessFunc (fuel : nat) (data : list A) (a b limit : nat)
  (wasBalanced wasPartitioned : bool) : list A :=
  match fuel with
  | O => data
  | S f =>
      let length := (b - a)%nat in
      if (length <=? 12)%nat then insertionSortLessFunc data a b
      else if (limit =? 0)%nat then heapSortLessFunc data a b
      else
        let '(data, limit) :=
          if negb wasBalanced
          then (breakPatternsLessFunc data a b, (limit - 1)%nat)
          else (data, limit) in
        let '(pivot, hint) := choosePivotLessFunc data a b in
        let '(data, pivot, hint) :=
          match hint with
          | decreasingHint =>
              (reverseRangeLessFunc data a b,
               ((b - 1) - (pivot - a))%nat, increasingHint)
          | _ => (data, pivot, hint)
          end in
        let '(data, sorted) :=
          if wasBalanced && wasPartitioned && hintIsIncreasing hint
          then partialInsertionSortLessFunc data a b
          else (data, false) in
        if sorted then data
        else if (0 <? a)%nat && negb (Less data (a - 1) pivot) then
          let (data, mid) := partitionEqualLessFunc data a b pivot in
          pdqsortLessFunc f data mid b limit wasBalanced wasPartitioned
        else
          let '(data, mid, alreadyPartitioned) :=
            partitionLessFunc data a b pivot in
          let leftLen := (mid - a)%nat in
          let rightLen := (b - mid)%nat in
          let balanceThreshold := (length / 8)%nat in
          if (leftLen <? rightLen)%nat then
            let data := pdqsortLessFunc f data a mid limit true true in
            pdqsortLessFunc f data (mid + 1) b limit
              (balanceThreshold <=? leftLen)%nat alreadyPartitioned
          else
            let data := pdqsortLessFunc f data (mid + 1) b limit true true in
            pdqsortLessFunc f data a mid limit
              (balanceThreshold <=? rightLen)%nat alreadyPartitioned
  end.

Definition Slice (data : list A) : list A :=
  let length := length data in
  pdqsortLessFunc (S length) data 0 length (bitsLen length) true true.

End PDQ.

End sort.







(** [LinkedNode] of memorypack_test.go, [struct { Value int; Next
    *LinkedNode }], unfolded [n] times, and the list of [n + 1] nodes. *)
Fixpoint LinkedNodeT (n : nat) : type :=
  TStruct [ (mkField "Value" "" "", TBasic reflect.Int);
            (mkField "Next" "" "",
             TPtr match n with
                  | O => TBasic reflect.Invalid
                  | S k => LinkedNodeT k
                  end) ].

Fixpoint linkedList (n : nat) : value :=
  VStruct [ VInt (Z.of_nat n);
            VPtr match n with
                 | O => None
                 | S k => Some (linkedList k)
                 end ].

(** [errors.Is(err, depth error)]: the depth error, however wrapped. *)
Fixpoint isDepthError (e : error) : bool :=
  match e with
  | ErrDepthExceeded => true
  | ErrWrapped _ e' => isDepthError e'
  | _ => false
  end.

Definition isDepthExceeded {A} (res : outcome A) : bool :=
  match res with
  | Err e => isDepthError e
  | _ => false
  end.

(** What a piece of the writer does to the depth counter when entered at
    a depth within the bound: every value the counter takes is between the
    depth at entry and [MaxDepth + 1]; unless the piece fails with the
    depth error the counter never passes [MaxDepth] and is back at its
    entry value at the end; when it fails with the depth error the counter
    has been at [MaxDepth + 1] and ends one above its entry value. *)
Definition depthSafe {A} (m : M Writer A) : Prop :=
  forall w, depth w <= MaxDepth ->
    exists log',
      depthLog (snd (m w)) = log' ++ depthLog w
      /\ Forall (fun d => depth w <= d <= MaxDepth + 1) log'
      /\ if isDepthExceeded (fst (m w))
         then depth (snd (m w)) = depth w + 1 /\ In (MaxDepth + 1) log'
         else depth (snd (m w)) = depth w
              /\ Forall (fun d => d <= MaxDepth) log'.

(** [writeValue]'s frame around a body: the depth check first, the
    deferred decrement around the rest. *)
Definition guarded {A} (body : M Writer A) : M Writer A :=
  _ <- CheckDepth ;; deferred EndCheckDepth body.

(** What the frame does, entered at a depth within the bound.  At
    [MaxDepth] the check fails: the result is the depth error, the counter
    stands at [MaxDepth + 1], and nothing else of the writer has changed.
    Below [MaxDepth] the counter is first raised by one, stays at or above
    that value while the body runs, and is lowered by one at the end. *)
Definition raisesAndLowers {A} (m : M Writer A) : Prop :=
  forall w, depth w <= MaxDepth ->
    (depth w = MaxDepth ->
     m w = (Err ErrDepthExceeded, setDepth (MaxDepth + 1) w))
    /\ (depth w < MaxDepth ->
        exists inner dBody,
          depthLog (snd (m w))
          = (dBody - 1) :: inner ++ (depth w + 1) :: depthLog w
          /\ depth (snd (m w)) = dBody - 1
          /\ Forall (fun d => depth w + 1 <= d <= MaxDepth + 1) inner
          /\ if isDepthExceeded (fst (m w))
             then dBody = depth w + 2 /\ In (MaxDepth + 1) inner
             else dBody = depth w + 1
                  /\ Forall (fun d => d <= MaxDepth) inner).

(** A value whose Formatter, if it has one, keeps to the depth
    discipline: as every Formatter does that writes through the Write
    methods of the writer or through [SerializeStruct]. *)
Definition formatterKeepsDepth (a : any) : Prop :=
  forall f, formatter a = Some f -> depthSafe (fmtSerialize f).

(* ------------------------------------------------------------------ *)
(** ** The wire layout *)



Definition encInt32 (v : Z) : list byte := le_bytes 4 (to_unsigned 32 v).



Section Encoding.

Variable sortSlice :
  (fieldInfo -> fieldInfo -> bool) -> list fieldInfo -> list fieldInfo.



End Encoding.




(* ------------------------------------------------------------------ *)
(** ** Reading the wire layout back *)

(** The cursor of a reader is within its buffer. *)
Definition wfReader (r : Reader) : Prop := (rpos r <= length (rbuffer r))%nat.

(** A read that, on input that starts with [bs], returns [a] and leaves
    exactly what follows [bs]. *)
Definition reads {A} (rd : M Reader A) (bs : list byte) (a : A) : Prop :=
  forall r rest, wfReader r -> remaining r = bs ++ rest ->
    exists r', rd r = (Ok a, r') /\ wfReader r' /\ remaining r' = rest.


Definition inRange (w : Z) (i : Z) : Prop := - 2 ^ (w - 1) <= i < 2 ^ (w - 1).







Section RoundTrip.

Variable sortSlice :
  (fieldInfo -> fieldInfo -> bool) -> list fieldInfo -> list fieldInfo.


End RoundTrip.


(** The storage of a struct after [DeserializeStruct] has gone through the
    schema [fd]: the field at each position of [fd] holds what the wire
    carries of the value there. *)
Definition storeFields (viss : list (value -> value)) (vals : list value)
  (fd : list fieldInfo) (cur : list value) : list value :=
  fold_left
    (fun c f =>
       match nth_error viss (index f), nth_error vals (index f) with
       | Some vis, Some x => setField (index f) (vis x) c
       | _, _ => c
       end) fd cur.





(* ================================================================== *)
(** * Properties *)

(* ------------------------------------------------------------------ *)
(** ** Bytes *)

Lemma Z_of_byte_range (b : byte) : 0 <= Z_of_byte b < 256.
Proof.
  unfold Z_of_byte. pose proof (Byte.to_N_bounded b). lia.
Qed.

Lemma Z_of_byte_of_Z (z : Z) : Z_of_byte (byte_of_Z z) = z mod 256.
Proof.
  unfold Z_of_byte, byte_of_Z.
  change 255 with (Z.ones 8). rewrite Z.land_ones by lia.
  change (2 ^ 8) with 256.
  pose proof (Z.mod_pos_bound z 256 ltac:(lia)) as Hb.
  destruct (Byte.of_N (Z.to_N (z mod 256))) as [b|] eqn:E.
  - apply Byte.to_of_N in E. rewrite E. lia.
  - apply Byte.of_N_None_iff in E. lia.
Qed.

Lemma byte_of_Z_of_byte (b : byte) : byte_of_Z (Z_of_byte b) = b.
Proof.
  pose proof (Z_of_byte_range b) as Hb.
  unfold byte_of_Z. change 255 with (Z.ones 8). rewrite Z.land_ones by lia.
  change (2 ^ 8) with 256. rewrite Z.mod_small by lia.
  unfold Z_of_byte. rewrite N2Z.id, Byte.of_to_N. reflexivity.
Qed.

Lemma Z_of_byte_inj (a b : byte) : Z_of_byte a = Z_of_byte b -> a = b.
Proof.
  intros H. rewrite <- (byte_of_Z_of_byte a), <- (byte_of_Z_of_byte b).
  now rewrite H.
Qed.

Lemma lor_shiftl_8 (a b : Z) :
  0 <= a < 256 -> Z.lor a (Z.shiftl b 8) = a + 256 * b.
Proof.
  intros Ha.
  assert (Hland : Z.land a (Z.shiftl b 8) = 0).
  { apply Z.bits_inj'. intros n Hn.
    rewrite Z.land_spec, Z.bits_0.
    destruct (Z.ltb_spec n 8).
    - rewrite (Z.shiftl_spec_low b 8 n) by lia. apply andb_false_r.
    - replace (Z.testbit a n) with false; [reflexivity|].
      symmetry. destruct (Z.eq_dec a 0) as [->|Hz]; [apply Z.bits_0|].
      apply Z.bits_above_log2; [lia|].
      apply Z.log2_lt_pow2; [lia|].
      apply Z.lt_le_trans with (2 ^ 8); [change (2 ^ 8) with 256; lia|].
      apply Z.pow_le_mono_r; lia. }
  rewrite <- Z.lxor_lor by exact Hland.
  rewrite <- Z.add_nocarry_lxor by exact Hland.
  rewrite Z.shiftl_mul_pow2 by lia. change (2 ^ 8) with 256. lia.
Qed.

Lemma le_value_cons (b : byte) (rest : list byte) :
  le_value (b :: rest) = Z_of_byte b + 256 * le_value rest.
Proof. simpl. apply lor_shiftl_8, Z_of_byte_range. Qed.

Lemma le_bytes_length (n : nat) (v : Z) : length (le_bytes n v) = n.
Proof. revert v. induction n; intros; simpl; [reflexivity|]. now rewrite IHn. Qed.

Lemma le_value_range (bs : list byte) :
  0 <= le_value bs < 2 ^ (8 * Z.of_nat (length bs)).
Proof.
  induction bs as [|b bs IH].
  - simpl. lia.
  - rewrite le_value_cons. pose proof (Z_of_byte_range b).
    replace (8 * Z.of_nat (length (b :: bs)))
      with (8 + 8 * Z.of_nat (length bs)) by (simpl length; lia).
    rewrite Z.pow_add_r by lia. change (2 ^ 8) with 256. nia.
Qed.

Lemma le_value_le_bytes (n : nat) (v : Z) :
  0 <= v < 2 ^ (8 * Z.of_nat n) -> le_value (le_bytes n v) = v.
Proof.
  revert v. induction n as [|n IH]; intros v Hv.
  - simpl in *. lia.
  - cbn [le_bytes]. rewrite le_value_cons, Z_of_byte_of_Z.
    rewrite Z.shiftr_div_pow2 by lia. change (2 ^ 8) with 256.
    rewrite IH.
    + pose proof (Z.div_mod v 256 ltac:(lia)). lia.
    + replace (8 * Z.of_nat (S n)) with (8 + 8 * Z.of_nat n) in Hv by lia.
      rewrite Z.pow_add_r in Hv by lia. change (2 ^ 8) with 256 in Hv.
      split; [apply Z.div_pos; lia|].
      apply Z.div_lt_upper_bound; lia.
Qed.

Lemma to_unsigned_range (w v : Z) : 0 <= w -> 0 <= to_unsigned w v < 2 ^ w.
Proof.
  intros Hw. unfold to_unsigned. apply Z.mod_pos_bound.
  apply Z.pow_pos_nonneg; lia.
Qed.

Lemma to_signed_unsigned (w v : Z) :
  0 < w -> - 2 ^ (w - 1) <= v < 2 ^ (w - 1) ->
  to_signed w (to_unsigned w v) = v.
Proof.
  intros Hw Hv. unfold to_signed, to_unsigned.
  assert (Hp : 2 ^ w = 2 * 2 ^ (w - 1)).
  { replace w with (1 + (w - 1)) at 1 by lia.
    rewrite Z.pow_add_r by lia. reflexivity. }
  destruct (Z.ltb_spec v 0) as [Hneg|Hpos].
  - replace (v mod 2 ^ w) with (v + 2 ^ w).
    + destruct (Z.ltb_spec (v + 2 ^ w) (2 ^ (w - 1))); lia.
    + apply Z.mod_unique with (-1); lia.
  - rewrite Z.mod_small by lia.
    destruct (Z.ltb_spec v (2 ^ (w - 1))); lia.
Qed.


Lemma to_signed_range (w u : Z) :
  0 < w -> 0 <= u < 2 ^ w -> - 2 ^ (w - 1) <= to_signed w u < 2 ^ (w - 1).
Proof.
  intros Hw Hu. unfold to_signed.
  assert (Hp : 2 ^ w = 2 * 2 ^ (w - 1)).
  { replace w with (1 + (w - 1)) at 1 by lia.
    rewrite Z.pow_add_r by lia. reflexivity. }
  destruct (Z.ltb_spec u (2 ^ (w - 1))); lia.
Qed.

(* ------------------------------------------------------------------ *)
(** ** The byte source *)

Lemma window_length (n : nat) (r : Reader) :
  (rpos r + n <= length (rbuffer r))%nat -> length (window n r) = n.
Proof.
  intros H. unfold window. rewrite length_firstn, length_skipn. lia.
Qed.

Lemma readFixed_cases (what : string) (n : nat) (r : Reader) :
  (readFixed what n r = (Err (ErrEndOfBuffer what), r)
   /\ (length (rbuffer r) < rpos r + n)%nat)
  \/ (readFixed what n r = (Ok (le_value (window n r)), advance n r)
      /\ (rpos r + n <= length (rbuffer r))%nat).
Proof.
  unfold readFixed.
  destruct (Nat.ltb_spec (length (rbuffer r)) (rpos r + n)); [left|right];
    split; auto.
Qed.

Lemma ReadByte_cases (r : Reader) :
  (ReadByte r = (Err (ErrEndOfBuffer "byte"), r)
   /\ (length (rbuffer r) <= rpos r)%nat)
  \/ (ReadByte r = (Ok (nth (rpos r) (rbuffer r) x00), advance 1 r)
      /\ (rpos r + 1 <= length (rbuffer r))%nat).
Proof.
  unfold ReadByte.
  destruct (Nat.leb_spec (length (rbuffer r)) (rpos r)); [left|right];
    split; auto; lia.
Qed.

Lemma ReadInt32_cases (r : Reader) :
  (ReadInt32 r = (Err (ErrEndOfBuffer "int32"), r)
   /\ (length (rbuffer r) < rpos r + 4)%nat)
  \/ (ReadInt32 r = (Ok (to_signed 32 (le_value (window 4 r))), advance 4 r)
      /\ (rpos r + 4 <= length (rbuffer r))%nat).
Proof.
  unfold ReadInt32, bind, ret.
  destruct (readFixed_cases "int32" 4 r) as [[-> H]|[-> H]]; auto.
Qed.

Lemma advance_advance (n m : nat) (r : Reader) :
  advance m (advance n r) = advance (n + m) r.
Proof. unfold advance. simpl. f_equal. lia. Qed.

Lemma readFixed_discipline (what : string) (n : nat) :
  failsClean (readFixed what n) /\ advancesBy (readFixed what n) (fun _ => n).
Proof.
  split.
  - intros r Hno.
    destruct (readFixed_cases what n r) as [[E _]|[E _]]; rewrite E in *.
    + reflexivity.
    + exfalso. eapply Hno. reflexivity.
  - intros r a r' H.
    destruct (readFixed_cases what n r) as [[E Hl]|[E Hl]]; rewrite E in H;
      inversion H; subst; auto.
Qed.

(** A read made of one bounds test, one move of the cursor, and a pure
    reinterpretation of what was loaded. *)
Lemma fixed_discipline {A B} (op : M Reader A) (n : nat) (f : A -> M Reader B) :
  failsClean op -> advancesBy op (fun _ => n) ->
  (forall a r, exists b, f a r = (Ok b, r)) ->
  failsClean (a <- op ;; f a) /\ advancesBy (a <- op ;; f a) (fun _ => n).
Proof.
  intros Hf Ha Hpure. split.
  - intros r Hno. unfold bind in *. specialize (Hf r).
    destruct (op r) as [[a|e|msg] r1] eqn:E; simpl in *;
      try (apply Hf; intros a' Ha'; discriminate).
    destruct (Hpure a r1) as [b Eb]. rewrite Eb in Hno.
    exfalso. eapply Hno. reflexivity.
  - intros r b r' H. unfold bind in H.
    destruct (op r) as [[a|e|msg] r1] eqn:E; try discriminate.
    destruct (Hpure a r1) as [b' Eb]. rewrite Eb in H. inversion H; subst.
    eapply Ha; eauto.
Qed.

Lemma ReadByte_discipline :
  failsClean ReadByte /\ advancesBy ReadByte (fun _ => 1%nat).
Proof.
  split.
  - intros r Hno. destruct (ReadByte_cases r) as [[E _]|[E _]]; rewrite E in *.
    + reflexivity.
    + exfalso. eapply Hno. reflexivity.
  - intros r a r' H.
    destruct (ReadByte_cases r) as [[E Hl]|[E Hl]]; rewrite E in H;
      inversion H; subst; auto.
Qed.

Lemma ReadInt32_discipline :
  failsClean ReadInt32 /\ advancesBy ReadInt32 (fun _ => 4%nat).
Proof.
  apply fixed_discipline; try apply readFixed_discipline.
  intros a r. eexists. reflexivity.
Qed.

Lemma ReadBytes_advances :
  advancesBy ReadBytes
    (fun b => (4 + match b with Some bs => length bs | None => 0 end)%nat).
Proof.
  intros r b r' H. unfold ReadBytes, bind, ret, fail in H.
  destruct (ReadInt32_cases r) as [[E Hl]|[E Hl]]; rewrite E in H;
    [discriminate|].
  set (len := to_signed 32 (le_value (window 4 r))) in *.
  destruct (len =? NullCollection).
  { inversion H; subst. split; [reflexivity | lia]. }
  destruct (Z.ltb_spec len 0); [discriminate|].
  unfold available in H. cbn [advance rbuffer rpos] in H.
  destruct (Z.ltb_spec (Z.of_nat (length (rbuffer r) - (rpos r + 4))) len);
    [discriminate|].
  inversion H; subst. rewrite advance_advance.
  rewrite window_length by (cbn [advance rbuffer rpos]; lia).
  split; [reflexivity | lia].
Qed.

Lemma ReadBytes_failure (r : Reader) :
  failed (ReadBytes r) ->
  snd (ReadBytes r) = r \/ snd (ReadBytes r) = advance 4 r.
Proof.
  intros Hno. unfold ReadBytes, bind, ret, fail in *.
  destruct (ReadInt32_cases r) as [[E Hl]|[E Hl]]; rewrite E in *; auto.
  destruct (_ =? NullCollection); auto.
  destruct (_ <? 0); auto.
  destruct (Z.of_nat (available (advance 4 r)) <? _); auto.
  exfalso. eapply Hno. reflexivity.
Qed.

Lemma ReadString_advances (r r' : Reader) (s : list byte) :
  ReadString r = (Ok s, r') ->
  (rpos r' <= length (rbuffer r'))%nat /\
  ((s = [] /\ r' = advance 4 r) \/ r' = advance (8 + length s) r).
Proof.
  intros H. unfold ReadString, bind, ret in H.
  destruct (ReadInt32_cases r) as [[E Hl]|[E Hl]]; rewrite E in H;
    [discriminate|].
  set (byteCount := to_signed 32 (le_value (window 4 r))) in *.
  destruct (0 <=? byteCount).
  { assert (s = [] /\ r' = advance 4 r) as [-> ->]
      by (destruct (byteCount =? NullCollection); inversion H; auto).
    split; [cbn [advance rbuffer rpos]; lia | auto]. }
  destruct (ReadInt32_cases (advance 4 r)) as [[E2 Hl2]|[E2 Hl2]];
    rewrite E2 in H; [discriminate|].
  rewrite advance_advance in *. cbn [advance rbuffer rpos] in *.
  destruct (Nat.ltb_spec (length (rbuffer r))
              (rpos r + (4 + 4) + Z.to_nat (complement byteCount)));
    [discriminate|].
  inversion H; subst. rewrite advance_advance.
  rewrite window_length by (cbn [advance rbuffer rpos]; lia).
  cbn [advance rbuffer rpos]. split; [lia|]. right. f_equal.
Qed.

Lemma ReadString_failure (r : Reader) :
  failed (ReadString r) ->
  (snd (ReadString r) = r \/ snd (ReadString r) = advance 4 r
   \/ snd (ReadString r) = advance 8 r)
  /\ exists e, fst (ReadString r) = Err e /\ errorKind e = TruncatedInput.
Proof.
  intros Hno. unfold ReadString, bind, ret in *.
  destruct (ReadInt32_cases r) as [[E Hl]|[E Hl]]; rewrite E in *.
  { split; [auto | eexists; split; reflexivity]. }
  destruct (0 <=? _).
  { exfalso. destruct (_ =? NullCollection); eapply Hno; reflexivity. }
  destruct (ReadInt32_cases (advance 4 r)) as [[E2 Hl2]|[E2 Hl2]];
    rewrite E2 in *.
  { split; [auto | eexists; split; reflexivity]. }
  rewrite advance_advance in *.
  destruct (length (rbuffer (advance (4 + 4) r)) <? _)%nat.
  - split; [right; right; reflexivity | eexists; split; reflexivity].
  - exfalso. eapply Hno. reflexivity.
Qed.

Lemma ReadCollectionHeader_discipline :
  failsClean ReadCollectionHeader
  /\ advancesBy ReadCollectionHeader (fun _ => 4%nat).
Proof.
  apply fixed_discipline; try apply ReadInt32_discipline.
  intros a r. destruct (a =? NullCollection); eexists; reflexivity.
Qed.

Lemma ReadObjectHeader_discipline :
  failsClean ReadObjectHeader /\ advancesBy ReadObjectHeader (fun _ => 1%nat).
Proof.
  apply fixed_discipline; try apply ReadByte_discipline.
  intros a r. destruct (Byte.eqb a NullObject); eexists; reflexivity.
Qed.

(** C4, as the specification states it, at [ReadBytes]: the read of a
    length of -2 fails after the cursor has moved past the four bytes of
    the length. *)
Lemma ReadBytes_failure_moves_cursor : ~ failsClean ReadBytes.
Proof.
  intros H. specialize (H (NewReader [xfe; xff; xff; xff])).
  assert (Hf : failed (ReadBytes (NewReader [xfe; xff; xff; xff]))).
  { intros a. vm_compute. discriminate. }
  specialize (H Hf). vm_compute in H. discriminate.
Qed.

(** C4, amended.  Each read that is one bounds test and one move of the
    cursor (ReadByte, ReadInt16/32/64, ReadFloat32/64, ReadCollectionHeader,
    ReadObjectHeader) moves the cursor by exactly its width when it
    succeeds and leaves the reader untouched when it fails.  ReadBytes and
    ReadString move the cursor by exactly the bytes they consumed when they
    succeed (the length field, the second length field of a string, the
    payload); when they fail the buffer is untouched and the cursor stands
    where it stood or past the length fields already read (4 bytes for
    ReadBytes, 4 or 8 for ReadString). *)
Theorem read_cursor_discipline :
  (failsClean ReadByte /\ advancesBy ReadByte (fun _ => 1%nat))
  /\ (failsClean ReadInt16 /\ advancesBy ReadInt16 (fun _ => 2%nat))
  /\ (failsClean ReadInt32 /\ advancesBy ReadInt32 (fun _ => 4%nat))
  /\ (failsClean ReadInt64 /\ advancesBy ReadInt64 (fun _ => 8%nat))
  /\ (failsClean ReadFloat32 /\ advancesBy ReadFloat32 (fun _ => 4%nat))
  /\ (failsClean ReadFloat64 /\ advancesBy ReadFloat64 (fun _ => 8%nat))
  /\ (failsClean ReadCollectionHeader
      /\ advancesBy ReadCollectionHeader (fun _ => 4%nat))
  /\ (failsClean ReadObjectHeader
      /\ advancesBy ReadObjectHeader (fun _ => 1%nat))
  /\ (advancesBy ReadBytes
        (fun b => (4 + match b with Some bs => length bs | None => 0 end)%nat)
      /\ forall r, failed (ReadBytes r) ->
           snd (ReadBytes r) = r \/ snd (ReadBytes r) = advance 4 r)
  /\ ((forall r s r', ReadString r = (Ok s, r') ->
         (rpos r' <= length (rbuffer r'))%nat /\
         ((s = [] /\ r' = advance 4 r) \/ r' = advance (8 + length s) r))
      /\ forall r, failed (ReadString r) ->
           snd (ReadString r) = r \/ snd (ReadString r) = advance 4 r
           \/ snd (ReadString r) = advance 8 r).
Proof.
  assert (Hsigned : forall w what n,
             failsClean (v <- readFixed what n ;; ret (to_signed w v))
             /\ advancesBy (v <- readFixed what n ;; ret (to_signed w v))
                  (fun _ => n)).
  { intros. apply fixed_discipline; try apply readFixed_discipline.
    intros a r. eexists. reflexivity. }
  split; [apply ReadByte_discipline|].
  split; [apply Hsigned|].
  split; [apply ReadInt32_discipline|].
  split; [apply Hsigned|].
  split; [apply readFixed_discipline|].
  split; [apply readFixed_discipline|].
  split; [apply ReadCollectionHeader_discipline|].
  split; [apply ReadObjectHeader_discipline|].
  split; split.
  - apply ReadBytes_advances.
  - apply ReadBytes_failure.
  - intros r s r' H. now apply ReadString_advances.
  - intros r H. now apply ReadString_failure.
Qed.

(** C10.  When the next four bytes are a non-negative int32 [N], ReadString
    returns the empty string and moves the cursor by exactly four bytes,
    whatever [N] is: the [N] bytes that follow stay unread and no error is
    reported.  And no failure of ReadString, on any input, is a malformed
    header: every one is a truncated input. *)
Theorem ReadString_nonnegative_header (r : Reader) (N : Z) :
  fst (ReadInt32 r) = Ok N -> 0 <= N ->
  ReadString r = (Ok [], advance 4 r)
  /\ forall r0 e, fst (ReadString r0) = Err e ->
       errorKind e = TruncatedInput /\ errorKind e <> MalformedHeader.
Proof.
  intros HN Hpos. split.
  - unfold ReadString, bind, ret.
    destruct (ReadInt32_cases r) as [[E _]|[E _]]; rewrite E in *;
      simpl in HN; [discriminate|].
    inversion HN as [HN']. rewrite HN'.
    destruct (Z.leb_spec 0 N); [|lia].
    destruct (N =? NullCollection); reflexivity.
  - intros r0 e He.
    destruct (ReadString_failure r0) as [_ [e' [He' Hk]]].
    + intros a Ha. congruence.
    + assert (e = e') by congruence. subst. split; [exact Hk|].
      rewrite Hk. discriminate.
Qed.

Lemma ReadString_nonnegative_header_witness :
  ReadString (NewReader [x05; x00; x00; x00; x41])
  = (Ok [], advance 4 (NewReader [x05; x00; x00; x00; x41])).
Proof.
  apply (ReadString_nonnegative_header
           (NewReader [x05; x00; x00; x00; x41]) (N := 5)).
  - reflexivity.
  - lia.
Defined.

(** C9.  [Serialize(int32(300))] is exactly 2C 01 00 00, [Serialize("")]
    exactly 00 00 00 00, and [Serialize] of a nil byte slice exactly
    FF FF FF FF: no version byte and no framing around them. *)
Theorem Serialize_examples
  (sortSlice : (fieldInfo -> fieldInfo -> bool) -> list fieldInfo
               -> list fieldInfo) :
  Serialize sortSlice (mkAny (TBasic reflect.Int32) (VInt 300) None)
  = Ok [x2c; x01; x00; x00]
  /\ Serialize sortSlice (mkAny (TBasic reflect.String) (VString []) None)
     = Ok [x00; x00; x00; x00]
  /\ Serialize sortSlice
       (mkAny (TSlice (TBasic reflect.Uint8)) (VBytes None) None)
     = Ok [xff; xff; xff; xff].
Proof. repeat split; vm_compute; reflexivity. Qed.

(** C3, the code at the length -2 (FE FF FF FF).  ReadCollectionHeader
    hands the negative length over as an element count.  Behind it an
    array is left as it was and a map comes out empty, both successfully;
    a slice panics in [reflect.MakeSlice]; only ReadBytes, which tests the
    sign itself, reports the length. *)
Theorem negative_collection_header_accepted :
  let data := [xfe; xff; xff; xff] in
  let int32 := TBasic reflect.Int32 in
  ReadCollectionHeader (NewReader data) = (Ok (-2, false), mkReader data 4)
  /\ Deserialize insertionSort data
       (addressOf (TArray 2 int32) (zero (TArray 2 int32)))
     = Ok (VArray [VInt 0; VInt 0])
  /\ Deserialize insertionSort data
       (addressOf (TMap (TBasic reflect.String) int32) (VMap None))
     = Ok (VMap (Some []))
  /\ Deserialize insertionSort data (addressOf (TSlice int32) (VSlice None))
     = Panic "reflect.MakeSlice: negative len"
  /\ Deserialize insertionSort data
       (addressOf (TSlice (TBasic reflect.Uint8)) (VBytes None))
     = Err (ErrInvalidByteArrayLength (-2)).
Proof. repeat split; vm_compute; reflexivity. Qed.

(** C8, the code at the header bytes 250 to 254.  ReadObjectHeader returns
    each of them as a member count; a struct of one field then fails with
    the field-count mismatch, which is not an unsupported-tag error. *)
Theorem reserved_object_header_accepted :
  map (fun b => fst (ReadObjectHeader (NewReader [b])))
      [xfa; xfb; xfc; xfd; xfe]
  = [Ok (250, false); Ok (251, false); Ok (252, false); Ok (253, false);
     Ok (254, false)]
  /\ let T := TStruct [(mkField "Value" "" "", TBasic reflect.Int)] in
     Deserialize insertionSort
       [xfa; x2a; x00; x00; x00; x00; x00; x00; x00] (addressOf T (zero T))
     = Err ErrFieldCountMismatch
     /\ errorKind ErrFieldCountMismatch <> UnsupportedTag.
Proof. repeat split; vm_compute; try reflexivity; discriminate. Qed.

(** C2, the code at [&CustomFormat{IntValue: 42, StrValue: "custom"}].
    After the type's own Serialize has returned, Serialize goes on into the
    generic walker: the result is the formatter's eighteen bytes followed
    by the twenty-three bytes the field walker writes for the same struct. *)
Theorem Serialize_formatter_falls_through :
  let own :=
    GetBytes (snd (CustomFormat.Serialize CustomFormat.original (NewWriter 128))) in
  let generic :=
    [x02; x2a; x00; x00; x00; x00; x00; x00; x00;
     xf9; xff; xff; xff; x06; x00; x00; x00;
     "c"; "u"; "s"; "t"; "o"; "m"]%byte in
  Serialize insertionSort (CustomFormat.pointer CustomFormat.original)
  = Ok (own ++ generic)
  /\ Serialize insertionSort (addressOf CustomFormat.T CustomFormat.original)
     = Ok generic
  /\ own = [x2a; x00; x00; x00; xf9; xff; xff; xff; x06; x00; x00; x00;
            "c"; "u"; "s"; "t"; "o"; "m"]%byte.
Proof. repeat split; vm_compute; reflexivity. Qed.

(* ------------------------------------------------------------------ *)
(** ** The field schema *)

Section SortedLists.

Context {A : Type} (R : A -> A -> Prop).




End SortedLists.






(* ------------------------------------------------------------------ *)
(** ** [sort.Slice] rearranges *)

Section SliceRearranges.

Context {A : Type} (less : A -> A -> bool).



























End SliceRearranges.










(* ------------------------------------------------------------------ *)
(** ** Induction on types and values *)

Lemma type_rect' (P : type -> Prop)
  (HBasic : forall k, P (TBasic k))
  (HSlice : forall e, P e -> P (TSlice e))
  (HArray : forall n e, P e -> P (TArray n e))
  (HMap : forall k e, P k -> P e -> P (TMap k e))
  (HPtr : forall e, P e -> P (TPtr e))
  (HStruct : forall fields, Forall (fun ft => P (snd ft)) fields ->
                            P (TStruct fields)) :
  forall t, P t.
Proof.
  fix IH 1. intros [k|e|n e|k e|e|fields].
  - apply HBasic.
  - apply HSlice, IH.
  - apply HArray, IH.
  - apply HMap; apply IH.
  - apply HPtr, IH.
  - apply HStruct. induction fields as [|[sf ft] fields IHf]; constructor.
    + apply IH.
    + exact IHf.
Qed.

(* ------------------------------------------------------------------ *)
(** ** The depth guard *)

Ltac dlia := unfold MaxDepth in *; simpl in *; lia.

Lemma depthSafe_lift (f : Writer -> Writer) :
  (forall w, depth (f w) = depth w /\ depthLog (f w) = depthLog w) ->
  depthSafe (lift f).
Proof.
  intros Hf w Hw. exists []. simpl. destruct (Hf w) as [Hd Hl].
  repeat split; auto.
Qed.

Lemma depthSafe_ret {A} (a : A) : depthSafe (ret a).
Proof. intros w Hw. exists []. simpl. repeat split; auto. Qed.

Lemma depthSafe_panic {A} (msg : string) : depthSafe (@panic Writer A msg).
Proof. intros w Hw. exists []. simpl. repeat split; auto. Qed.

Lemma depthSafe_fail {A} (e : error) :
  isDepthError e = false -> depthSafe (@fail Writer A e).
Proof.
  intros He w Hw. exists []. simpl. rewrite He. repeat split; auto.
Qed.

Lemma depthSafe_bind {A B} (m : M Writer A) (k : A -> M Writer B) :
  depthSafe m -> (forall a, depthSafe (k a)) -> depthSafe (bind m k).
Proof.
  intros Hm Hk w Hw. unfold bind.
  destruct (Hm w Hw) as (l1 & Hl1 & Hr1 & Hd1).
  destruct (m w) as [[a|e|msg] w1] eqn:E; simpl in *.
  - destruct Hd1 as [Hd1 Hmax1].
    destruct (Hk a w1) as (l2 & Hl2 & Hr2 & Hd2); [lia|].
    exists (l2 ++ l1). rewrite Hl2, Hl1, app_assoc. split; [reflexivity|].
    split.
    + apply Forall_app. split; auto.
      eapply Forall_impl; [|exact Hr2]. simpl. intros; lia.
    + destruct (isDepthExceeded (fst (k a w1))).
      * destruct Hd2 as [Hd2 Hin]. split; [lia|].
        apply in_or_app. now left.
      * destruct Hd2. split; [lia|]. apply Forall_app. auto.
  - exists l1. auto.
  - exists l1. auto.
Qed.

Lemma depthSafe_wrapErr {A} (prefix : string) (m : M Writer A) :
  depthSafe m -> depthSafe (wrapErr prefix m).
Proof.
  intros Hm w Hw. destruct (Hm w Hw) as (l & Hl & Hr & Hd).
  exists l. unfold wrapErr. destruct (m w) as [[a|e|msg] w1]; simpl in *; auto.
Qed.

Lemma ensureCapacity_depth n w :
  depth (ensureCapacity n w) = depth w
  /\ depthLog (ensureCapacity n w) = depthLog w.
Proof.
  unfold ensureCapacity. destruct (_ <? _)%nat; simpl; auto.
Qed.

Lemma put_depth bs w :
  depth (put bs w) = depth w /\ depthLog (put bs w) = depthLog w.
Proof. unfold put. simpl. auto. Qed.

Lemma put_ensure_depth bs n w :
  depth (put bs (ensureCapacity n w)) = depth w
  /\ depthLog (put bs (ensureCapacity n w)) = depthLog w.
Proof.
  destruct (put_depth bs (ensureCapacity n w)) as [-> ->].
  apply ensureCapacity_depth.
Qed.

Lemma WriteBool_depth b w :
  depth (WriteBool b w) = depth w /\ depthLog (WriteBool b w) = depthLog w.
Proof. destruct b; apply put_ensure_depth. Qed.

Lemma WriteInt32_depth v w :
  depth (WriteInt32 v w) = depth w /\ depthLog (WriteInt32 v w) = depthLog w.
Proof. unfold WriteInt32. apply put_ensure_depth. Qed.

Lemma WriteByte_depth v w :
  depth (WriteByte v w) = depth w /\ depthLog (WriteByte v w) = depthLog w.
Proof. unfold WriteByte. apply put_ensure_depth. Qed.

Lemma WriteBytes_depth b w :
  depth (WriteBytes b w) = depth w /\ depthLog (WriteBytes b w) = depthLog w.
Proof.
  unfold WriteBytes. destruct b as [bs|]; [|apply WriteInt32_depth].
  destruct (0 <? length bs)%nat; [|apply WriteInt32_depth].
  destruct (put_ensure_depth bs (length bs)
              (WriteInt32 (wrap 32 (Z.of_nat (length bs))) w)) as [-> ->].
  apply WriteInt32_depth.
Qed.

Lemma WriteString_depth s w :
  depth (WriteString s w) = depth w
  /\ depthLog (WriteString s w) = depthLog w.
Proof.
  destruct s as [|b s]; [apply WriteInt32_depth|].
  unfold WriteString.
  set (n := length (b :: s)).
  destruct (put_depth (b :: s)
    (WriteInt32 (wrap 32 (Z.of_nat n))
       (WriteInt32 (complement (wrap 32 (Z.of_nat n)))
          (ensureCapacity (n + 8) w)))) as [-> ->].
  destruct (WriteInt32_depth (wrap 32 (Z.of_nat n))
    (WriteInt32 (complement (wrap 32 (Z.of_nat n)))
       (ensureCapacity (n + 8) w))) as [-> ->].
  destruct (WriteInt32_depth (complement (wrap 32 (Z.of_nat n)))
       (ensureCapacity (n + 8) w)) as [-> ->].
  apply ensureCapacity_depth.
Qed.

Lemma WriteObjectHeader_depthSafe n : depthSafe (WriteObjectHeader n).
Proof.
  intros w Hw. exists []. unfold WriteObjectHeader.
  destruct (n <? 0); [|destruct (n <=? 249)]; cbn [fst snd isDepthExceeded];
    try (destruct (WriteByte_depth NullObject w) as [-> ->]);
    try (destruct (WriteByte_depth (byte_of_Z n) w) as [-> ->]);
    repeat split; auto.
Qed.

Lemma writeEach_depthSafe (wr : value -> M Writer unit) (l : list value) :
  (forall x, depthSafe (wr x)) -> depthSafe (writeEach wr l).
Proof.
  intros Hwr. induction l as [|x l IH]; simpl.
  - apply depthSafe_ret.
  - apply depthSafe_bind; auto.
Qed.

Lemma writeEntries_depthSafe (wk wv : value -> M Writer unit) l :
  (forall x, depthSafe (wk x)) -> (forall x, depthSafe (wv x)) ->
  depthSafe (writeEntries wk wv l).
Proof.
  intros Hk Hv. induction l as [|[k v] l IH]; simpl.
  - apply depthSafe_ret.
  - apply depthSafe_bind; auto. intros _. apply depthSafe_bind; auto.
Qed.

Lemma writeFields_depthSafe writers vals fd :
  Forall (fun wr : value -> M Writer unit => forall x, depthSafe (wr x)) writers ->
  depthSafe (writeFields writers vals fd).
Proof.
  intros Hws. induction fd as [|f fd IH]; simpl.
  - apply depthSafe_ret.
  - destruct (nth_error writers (index f)) as [wr|] eqn:E;
      [|apply depthSafe_panic].
    destruct (nth_error vals (index f)) as [x|]; [|apply depthSafe_panic].
    apply depthSafe_bind; auto.
    rewrite Forall_forall in Hws. apply Hws. eapply nth_error_In; eauto.
Qed.

Lemma serializeFields_depthSafe sortSlice fields writers v :
  Forall (fun wr : value -> M Writer unit => forall x, depthSafe (wr x)) writers ->
  depthSafe (serializeFields sortSlice fields writers v).
Proof.
  intros Hws. unfold serializeFields.
  destruct v; try apply depthSafe_panic.
  apply depthSafe_bind; [apply WriteObjectHeader_depthSafe|].
  intros _. now apply writeFields_depthSafe.
Qed.

(** Entering [writeValue] raises the counter, leaving it lowers it again;
    the one exit that does not is the failure of the depth check itself,
    which returns before the deferred call is set up. *)
Lemma guarded_raisesAndLowers {A} (body : M Writer A) :
  depthSafe body -> raisesAndLowers (guarded body).
Proof.
  intros Hb w Hw. unfold guarded, bind, CheckDepth, deferred.
  cbn [setDepth depth]. split.
  - intros Hmax. rewrite Hmax.
    destruct (Z.ltb_spec MaxDepth (MaxDepth + 1)); [reflexivity | dlia].
  - intros Hlt.
    destruct (Z.ltb_spec MaxDepth (depth w + 1)) as [Hover|Hin]; [dlia|].
    set (w1 := setDepth (depth w + 1) w).
    destruct (Hb w1) as (l & Hl & Hr & Hd); [simpl; dlia|].
    destruct (body w1) as [res w2] eqn:E. simpl in *.
    exists l, (depth w2). rewrite Hl.
    repeat split; auto.
    destruct (isDepthExceeded res).
    + destruct Hd. split; [dlia | assumption].
    + destruct Hd. split; [dlia | assumption].
Qed.

Lemma raisesAndLowers_depthSafe {A} (m : M Writer A) :
  raisesAndLowers m -> depthSafe m.
Proof.
  intros Hm w Hw. destruct (Hm w Hw) as [Hat Hbelow].
  destruct (Z.eq_dec (depth w) MaxDepth) as [Heq|Hne].
  - rewrite (Hat Heq). exists [MaxDepth + 1]. simpl.
    split; [reflexivity|]. split.
    + constructor; [dlia | constructor].
    + split; [dlia | now left].
  - destruct Hbelow as (inner & dBody & Hl & Hd & Hr & Hres); [dlia|].
    exists ((dBody - 1) :: inner ++ [depth w + 1]).
    rewrite Hl, Hd. split; [simpl; rewrite <- app_assoc; reflexivity|].
    assert (Hr' : Forall (fun d => depth w <= d <= MaxDepth + 1)
                    (inner ++ [depth w + 1])).
    { apply Forall_app. split.
      - eapply Forall_impl; [|exact Hr]. simpl. intros; dlia.
      - constructor; [dlia | constructor]. }
    destruct (isDepthExceeded (fst (m w))).
    + destruct Hres as [-> Hin]. split.
      * constructor; [dlia | exact Hr'].
      * split; [dlia|]. right. apply in_or_app. now left.
    + destruct Hres as [-> Hmax]. split.
      * constructor; [dlia | exact Hr'].
      * split; [dlia|]. constructor; [dlia|].
        apply Forall_app. split; [exact Hmax|].
        constructor; [dlia | constructor].
Qed.

Lemma guarded_depthSafe {A} (body : M Writer A) :
  depthSafe body -> depthSafe (guarded body).
Proof.
  intros. now apply raisesAndLowers_depthSafe, guarded_raisesAndLowers.
Qed.

(** The leaves of [writeValue]: one primitive write, or a failure that is
    not the depth error. *)
Ltac depth_leaf :=
  lazymatch goal with
  | |- depthSafe (panic _) => apply depthSafe_panic
  | |- depthSafe badValue => apply depthSafe_panic
  | |- depthSafe (ret _) => apply depthSafe_ret
  | |- depthSafe (fail _) => apply depthSafe_fail; reflexivity
  | |- depthSafe (lift (WriteBool _)) =>
      apply depthSafe_lift; intros ?; apply WriteBool_depth
  | |- depthSafe (lift (WriteString _)) =>
      apply depthSafe_lift; intros ?; apply WriteString_depth
  | |- depthSafe (lift (WriteBytes _)) =>
      apply depthSafe_lift; intros ?; apply WriteBytes_depth
  | |- depthSafe (lift (WriteByte _)) =>
      apply depthSafe_lift; intros ?; apply WriteByte_depth
  | |- depthSafe (lift (WriteInt32 _)) =>
      apply depthSafe_lift; intros ?; apply WriteInt32_depth
  | |- depthSafe (lift (WriteCollectionHeader _)) =>
      apply depthSafe_lift; intros ?; apply WriteInt32_depth
  | |- depthSafe (lift WriteNullCollectionHeader) =>
      apply depthSafe_lift; intros ?; apply WriteInt32_depth
  | |- depthSafe (lift (WriteInt16 _)) =>
      apply depthSafe_lift; intros ?; unfold WriteInt16;
      apply put_ensure_depth
  | |- depthSafe (lift (WriteInt64 _)) =>
      apply depthSafe_lift; intros ?; unfold WriteInt64;
      apply put_ensure_depth
  | |- depthSafe (lift (WriteFloat32 _)) =>
      apply depthSafe_lift; intros ?; unfold WriteFloat32;
      apply put_ensure_depth
  | |- depthSafe (lift (WriteFloat64 _)) =>
      apply depthSafe_lift; intros ?; unfold WriteFloat64;
      apply put_ensure_depth
  end.

(** Every [writeValue] is the frame around a body that keeps to the
    discipline. *)
Lemma writeValue_guarded sortSlice (t : type) :
  forall v, exists body,
    writeValue sortSlice t v = guarded body /\ depthSafe body.
Proof.
  induction t as [k|e IH|n e IH|k e IHk IHe|e IH|fields IH] using type_rect';
    intros v; cbn [writeValue]; eexists; (split; [reflexivity|]).
  - destruct k; destruct v; depth_leaf.
  - assert (He : forall x, depthSafe (writeValue sortSlice e x)).
    { intros x. destruct (IH x) as (b & -> & Hb). now apply guarded_depthSafe. }
    destruct v as [| | | |[bs|]|[l|]| | | | |]; try depth_leaf.
    + destruct (isByteSlice e); depth_leaf.
    + destruct (isByteSlice e); [depth_leaf|].
      apply depthSafe_bind; [depth_leaf|].
      intros _. now apply writeEach_depthSafe.
  - assert (He : forall x, depthSafe (writeValue sortSlice e x)).
    { intros x. destruct (IH x) as (b & -> & Hb). now apply guarded_depthSafe. }
    destruct v; try depth_leaf.
    apply depthSafe_bind; [depth_leaf|].
    intros _. now apply writeEach_depthSafe.
  - assert (Hk : forall x, depthSafe (writeValue sortSlice k x)).
    { intros x. destruct (IHk x) as (b & -> & Hb). now apply guarded_depthSafe. }
    assert (He : forall x, depthSafe (writeValue sortSlice e x)).
    { intros x. destruct (IHe x) as (b & -> & Hb). now apply guarded_depthSafe. }
    destruct v as [| | | | | | |[m|]| | |]; try depth_leaf.
    apply depthSafe_bind; [depth_leaf|].
    intros _. destruct (0 <? length m)%nat; [|depth_leaf].
    now apply writeEntries_depthSafe.
  - destruct v as [| | | | | | | | |[x|]|]; try depth_leaf.
    destruct (IH x) as (b & -> & Hb). now apply guarded_depthSafe.
  - apply serializeFields_depthSafe.
    apply Forall_map. eapply Forall_impl; [|exact IH].
    simpl. intros ft Hft x.
    destruct (Hft x) as (b & -> & Hb). now apply guarded_depthSafe.
Qed.

Lemma writeValue_depthSafe sortSlice (t : type) :
  forall v, depthSafe (writeValue sortSlice t v).
Proof.
  intros v. destruct (writeValue_guarded sortSlice t v) as (b & -> & Hb).
  now apply guarded_depthSafe.
Qed.

Lemma SerializeStruct_depthSafe sortSlice t v :
  depthSafe (SerializeStruct sortSlice t v).
Proof.
  unfold SerializeStruct.
  destruct (elemIfPtr t v) as [[k|e|n e|k e|e|fields] v'];
    try (apply depthSafe_fail; reflexivity).
  apply serializeFields_depthSafe.
  apply Forall_map, Forall_forall. intros ft _ x.
  apply writeValue_depthSafe.
Qed.

Lemma serializeOn_depthSafe sortSlice (a : any) :
  formatterKeepsDepth a -> depthSafe (serializeOn sortSlice a).
Proof.
  intros Hf. unfold serializeOn.
  apply depthSafe_bind.
  { destruct (formatter a) as [f|] eqn:E; [|apply depthSafe_ret].
    apply depthSafe_wrapErr. now apply Hf. }
  intros _.
  assert (Hgen : depthSafe
            (let (t', v') := elemIfPtr (typeOf a) (valueOf a) in
             match t' with
             | TStruct _ => SerializeStruct sortSlice t' v'
             | _ => writeValue sortSlice t' v'
             end)).
  { destruct (elemIfPtr (typeOf a) (valueOf a))
      as [[k|e|n e|k e|e|fields] v'];
      try apply writeValue_depthSafe.
    apply SerializeStruct_depthSafe. }
  destruct (typeOf a); try exact Hgen.
  destruct (valueOf a) as [| | | | | | | | |[x|]|]; try exact Hgen.
  apply depthSafe_lift. intros w. apply WriteByte_depth.
Qed.

Lemma CustomFormat_keepsDepth c : formatterKeepsDepth (CustomFormat.pointer c).
Proof.
  intros f Hf. inversion Hf; subst f. cbn [fmtSerialize].
  unfold CustomFormat.Serialize.
  destruct c as [| | | | | | | |[|[] [|[] []]]| |]; try depth_leaf.
  apply depthSafe_bind; [depth_leaf|]. intros _. depth_leaf.
Qed.

(** C7, as the specification states it, fails on a list of 501
    [LinkedNode]s: the depth counter reaches 1001. *)
Lemma depth_passes_MaxDepth :
  ~ (forall a : any,
       Forall (fun d => 0 <= d <= MaxDepth)
         (depthLog (snd (serializeOn insertionSort a (NewWriter 128))))).
Proof.
  intros H.
  specialize (H (addressOf (LinkedNodeT 500) (linkedList 500))).
  rewrite Forall_forall in H.
  assert (Hin : existsb (Z.eqb 1001)
            (depthLog (snd (serializeOn insertionSort
               (addressOf (LinkedNodeT 500) (linkedList 500))
               (NewWriter 128)))) = true) by (vm_compute; reflexivity).
  apply existsb_exists in Hin. destruct Hin as (d & Hd & E).
  apply Z.eqb_eq in E. subst d. specialize (H _ Hd).
  unfold MaxDepth in H. lia.
Qed.

(** C7, amended.  Every [writeValue] (struct field, collection element,
    pointer target) entered at a depth below [MaxDepth] raises the counter
    by one first, keeps it at or above that value while it runs, and
    lowers it by one on every exit, error exits included; entered at
    [MaxDepth] it fails with the depth error at once, with the counter
    left at [MaxDepth + 1] and nothing written: that exit alone does not
    lower the counter, since CheckDepth counts before it compares and the
    deferred EndCheckDepth is not yet set up.  So throughout every
    Serialize call (on a value whose Formatter, if any, keeps to the same
    discipline) 0 <= depth <= MaxDepth + 1; a call that does not fail with
    the depth error stays within 0 <= depth <= MaxDepth and ends at 0; a
    call that fails with the depth error has reached MaxDepth + 1 and ends
    at 1. *)
Theorem Serialize_depth_bounds
  (sortSlice : (fieldInfo -> fieldInfo -> bool) -> list fieldInfo
               -> list fieldInfo) (a : any) :
  formatterKeepsDepth a ->
  (forall t v, raisesAndLowers (writeValue sortSlice t v))
  /\ let res := serializeOn sortSlice a (NewWriter 128) in
     Forall (fun d => 0 <= d <= MaxDepth + 1) (depthLog (snd res))
     /\ (isDepthExceeded (fst res) = false ->
         Forall (fun d => 0 <= d <= MaxDepth) (depthLog (snd res))
         /\ depth (snd res) = 0)
     /\ (isDepthExceeded (fst res) = true ->
         In (MaxDepth + 1) (depthLog (snd res)) /\ depth (snd res) = 1).
Proof.
  intros Hf. split.
  { intros t v. destruct (writeValue_guarded sortSlice t v) as (b & -> & Hb).
    now apply guarded_raisesAndLowers. }
  intros res.
  destruct (serializeOn_depthSafe sortSlice Hf (NewWriter 128))
    as (l & Hl & Hr & Hd).
  { unfold NewWriter, MaxDepth. simpl. lia. }
  fold res in Hl, Hd.
  assert (Hlog : depthLog (snd res) = l).
  { rewrite Hl. unfold NewWriter. simpl. apply app_nil_r. }
  assert (H0 : depth (NewWriter 128) = 0) by reflexivity.
  rewrite H0 in Hr, Hd. rewrite Hlog. split; [exact Hr|]. split.
  - intros Hno. rewrite Hno in Hd. destruct Hd as [Hd Hmax]. split.
    + rewrite Forall_forall in *. intros d Hin.
      specialize (Hr d Hin). specialize (Hmax d Hin). lia.
    + rewrite Hd. reflexivity.
  - intros Hyes. rewrite Hyes in Hd. destruct Hd as [Hd Hin].
    split; [exact Hin | rewrite Hd; reflexivity].
Qed.

Lemma Serialize_depth_bounds_witness :
  raisesAndLowers (writeValue insertionSort (TBasic reflect.Int) (VInt 42))
  /\ depth (snd (serializeOn insertionSort
                   (CustomFormat.pointer CustomFormat.original)
                   (NewWriter 128))) = 0.
Proof.
  destruct (Serialize_depth_bounds insertionSort
              (@CustomFormat_keepsDepth CustomFormat.original))
    as [Hv [_ [H _]]].
  split; [apply Hv | apply H; reflexivity].
Defined.

(* ------------------------------------------------------------------ *)
(** ** The byte sink: what each write appends *)








(* ------------------------------------------------------------------ *)
(** ** The writer and the wire layout *)













(* ------------------------------------------------------------------ *)
(** ** The schema on the wire *)












(* ------------------------------------------------------------------ *)
(** ** The byte source on given input *)

Lemma remaining_length r :
  wfReader r -> length (remaining r) = (length (rbuffer r) - rpos r)%nat.
Proof. intros _. unfold remaining. apply length_skipn. Qed.

Lemma remaining_advance n r :
  remaining (advance n r) = skipn n (remaining r).
Proof.
  unfold remaining, advance. simpl. rewrite skipn_skipn.
  f_equal. lia.
Qed.

Lemma take_input r bs rest :
  wfReader r -> remaining r = bs ++ rest ->
  (rpos r + length bs <= length (rbuffer r))%nat
  /\ window (length bs) r = bs
  /\ wfReader (advance (length bs) r)
  /\ remaining (advance (length bs) r) = rest.
Proof.
  intros Hwf Hrem.
  assert (Hlen : (rpos r + length bs <= length (rbuffer r))%nat).
  { pose proof (remaining_length Hwf) as Hl. rewrite Hrem, length_app in Hl.
    unfold wfReader in Hwf. lia. }
  split; [exact Hlen|]. split; [|split].
  - unfold window. fold (remaining r). rewrite Hrem.
    rewrite firstn_app, firstn_all, Nat.sub_diag. simpl. apply app_nil_r.
  - unfold wfReader, advance. simpl. exact Hlen.
  - rewrite remaining_advance, Hrem.
    rewrite skipn_app, skipn_all, Nat.sub_diag. reflexivity.
Qed.



Lemma reads_ret {A} (a : A) : reads (ret a) [] a.
Proof. intros r rest Hwf Hrem. exists r. auto. Qed.

Lemma reads_bind {A B} (m : M Reader A) (k : A -> M Reader B) b1 b2 a c :
  reads m b1 a -> reads (k a) b2 c -> reads (x <- m ;; k x) (b1 ++ b2) c.
Proof.
  intros Hm Hk r rest Hwf Hrem. rewrite <- app_assoc in Hrem.
  destruct (Hm r _ Hwf Hrem) as (r1 & E1 & Hwf1 & Hrem1).
  destruct (Hk r1 _ Hwf1 Hrem1) as (r2 & E2 & Hwf2 & Hrem2).
  exists r2. unfold bind. rewrite E1. auto.
Qed.

Lemma reads_map {A B} (m : M Reader A) (f : A -> B) bs a :
  reads m bs a -> reads (x <- m ;; ret (f x)) bs (f a).
Proof.
  intros Hm. rewrite <- (app_nil_r bs).
  eapply reads_bind; [exact Hm | apply reads_ret].
Qed.

Lemma reads_readFixed what n u :
  0 <= u < 2 ^ (8 * Z.of_nat n) -> reads (readFixed what n) (le_bytes n u) u.
Proof.
  intros Hu r rest Hwf Hrem.
  destruct (take_input _ _ Hwf Hrem) as (Hlen & Hwin & Hwf' & Hrem').
  rewrite le_bytes_length in *.
  exists (advance n r). unfold readFixed.
  destruct (Nat.ltb_spec (length (rbuffer r)) (rpos r + n)); [lia|].
  rewrite Hwin, le_value_le_bytes by exact Hu. auto.
Qed.


Lemma reads_ReadInt32 v :
  inRange 32 v -> reads ReadInt32 (encInt32 v) v.
Proof.
  intros Hv. unfold ReadInt32, encInt32.
  replace v with (to_signed 32 (to_unsigned 32 v)) at 2
    by (apply to_signed_unsigned; [lia | exact Hv]).
  apply reads_map. apply reads_readFixed.
  apply (@to_unsigned_range 32 v). lia.
Qed.



(* ------------------------------------------------------------------ *)
(** ** Reading back what was written *)





















Lemma setField_length i x l : length (setField i x l) = length l.
Proof.
  revert i. induction l as [|y l IH]; intros [|i]; simpl; auto.
Qed.





Lemma storeFields_length viss vals fd cur :
  length (storeFields viss vals fd cur) = length cur.
Proof.
  unfold storeFields. revert cur.
  induction fd as [|f fd IH]; intros cur; simpl; auto.
  rewrite IH. destruct (nth_error viss (index f)); auto.
  destruct (nth_error vals (index f)); auto. apply setField_length.
Qed.















(* ------------------------------------------------------------------ *)
(** ** The schema, written and read *)



(* ------------------------------------------------------------------ *)
(** ** Serialize, then Deserialize *)






(* ------------------------------------------------------------------ *)
(** ** Serialize returns *)

















(** What else the round trip changes: a field [createFormatterData]
    leaves out, here the unexported [b] of [struct { A int; b int }], is at
    its zero value afterwards, and a float32 signalling NaN ([7fa00000])
    goes on the wire quieted ([7fe00000]). *)
Lemma round_trip_losses :
  (let T := TStruct [ (mkField "A" "" "", TBasic reflect.Int);
                      (mkField "b" "main" "", TBasic reflect.Int) ] in
   Serialize (@sort.Slice fieldInfo) (addressOf T (VStruct [VInt 1; VInt 2]))
   = Ok [x01; x01; x00; x00; x00; x00; x00; x00; x00]
   /\ Deserialize (@sort.Slice fieldInfo)
        [x01; x01; x00; x00; x00; x00; x00; x00; x00] (addressOf T (zero T))
      = Ok (VStruct [VInt 1; VInt 0]))
  /\ (let F := TBasic reflect.Float32 in
      Serialize (@sort.Slice fieldInfo) (addressOf F (VFloat 0x7fa00000))
      = Ok [x00; x00; xe0; x7f]
      /\ Deserialize (@sort.Slice fieldInfo) [x00; x00; xe0; x7f]
           (addressOf F (zero F))
         = Ok (VFloat 0x7fe00000)).
Proof. repeat split; vm_compute; reflexivity. Qed.






